(** * molert: a shallow embedding of [main.go]

    The alert relay keeps its whole state in a Redis server: a set
    [alert_urls] of known keys and, per alert key, a hash with the fields
    [alert] (the JSON payload) and [silence], plus the key's time to live.
    This file embeds [Alert.save], [Silence.silence], [getAlerts], [alert],
    the HTTP handlers and [Alert.toPayloads] over an executable model of the
    Redis commands the program issues, and proves the properties that the
    specification states about them, followed by further properties of the
    code: what each function leaves alone, what repeating it does, how it
    behaves on keys of the wrong kind, and how save, silence, list and scan
    compose.

    Layout: Go's [strings] functions, the program's data types, the Redis
    server and the [radix.v2] reply accessors, the program itself, sample
    inputs, the vocabulary in which the store is read, then the theorems.

    What is outside the program is either modelled or left open. Redis is
    modelled: typed keys, replies, and a time to live in whole seconds; time
    does not pass during a call, and the connection does not fail.
    [encoding/json] and the webhook are left open: the program is a function
    of them ([Externals]), as it is of its flags ([Flags]), and every theorem
    holds for all of them. *)

From Stdlib Require Import ZArith NArith String Ascii List Lia Bool.
From stdpp Require Import base option gmap sets list strings.

Local Open Scope string_scope.
Local Open Scope list_scope.
Local Open Scope Z_scope.

(** ** Go's [strings.Split] and [strings.TrimSpace]

    A Go string is a sequence of bytes; [TrimSpace] reads it as UTF-8. *)
Module GoStrings.

Definition bytes (s : string) : list ascii := list_ascii_of_string s.
Definition ofBytes (l : list ascii) : string := string_of_list_ascii l.

(** [split1 sep l] is the first piece of [l] and the pieces after it. *)
Fixpoint split1 (sep : ascii) (l : list ascii) : list ascii * list (list ascii) :=
  match l with
  | [] => ([], [])
  | c :: l' =>
      let '(h, t) := split1 sep l' in
      if Ascii.eqb c sep then ([], h :: t) else (c :: h, t)
  end.

Definition splitBytes (sep : ascii) (l : list ascii) : list (list ascii) :=
  let '(h, t) := split1 sep l in h :: t.

(** [strings.Split(s, sep)] for a separator of one byte, which is how the
    program calls it: the pieces between the separators, one more than there
    are separators, so the empty string splits into one empty piece. *)
Definition Split (s : string) (sep : ascii) : list string :=
  ofBytes <$> splitBytes sep (bytes s).

(** Code points with Unicode's White_Space property ([unicode.IsSpace]). *)
Definition whiteSpace : list N :=
  [0x09; 0x0A; 0x0B; 0x0C; 0x0D; 0x20; 0x85; 0xA0; 0x1680;
   0x2000; 0x2001; 0x2002; 0x2003; 0x2004; 0x2005; 0x2006; 0x2007; 0x2008;
   0x2009; 0x200A; 0x2028; 0x2029; 0x202F; 0x205F; 0x3000]%N.

(** UTF-8 encoding of a code point below 0x10000. *)
Definition utf8 (r : N) : list ascii :=
  (if r <? 0x80 then [ascii_of_N r]
   else if r <? 0x800 then
     [ascii_of_N (0xC0 + r / 64); ascii_of_N (0x80 + r mod 64)]
   else
     [ascii_of_N (0xE0 + r / 4096); ascii_of_N (0x80 + (r / 64) mod 64);
      ascii_of_N (0x80 + r mod 64)])%N.

Definition spaces : list (list ascii) := Eval vm_compute in utf8 <$> whiteSpace.

Fixpoint stripPrefix (t l : list ascii) : option (list ascii) :=
  match t, l with
  | [], _ => Some l
  | c :: t', d :: l' => if Ascii.eqb c d then stripPrefix t' l' else None
  | _ :: _, [] => None
  end.

(** The rest of [l] after the white-space rune it starts with, if any. *)
Fixpoint stripAny (toks : list (list ascii)) (l : list ascii) : option (list ascii) :=
  match toks with
  | [] => None
  | t :: ts =>
      match stripPrefix t l with
      | Some r => Some r
      | None => stripAny ts l
      end
  end.

Fixpoint trimLeftN (toks : list (list ascii)) (n : nat) (l : list ascii) : list ascii :=
  match n with
  | O => l
  | S n' =>
      match stripAny toks l with
      | Some r => trimLeftN toks n' r
      | None => l
      end
  end.

Definition trimLeft (toks : list (list ascii)) (l : list ascii) : list ascii :=
  trimLeftN toks (length l) l.

(** Trailing runes are found by reading the bytes backwards. *)
Definition trimRight (toks : list (list ascii)) (l : list ascii) : list ascii :=
  reverse (trimLeft (reverse <$> toks) (reverse l)).

(** The runes of [spaces] read backwards. *)
Definition rspaces : list (list ascii) := reverse <$> spaces.

Definition trimSpaceBytes (l : list ascii) : list ascii :=
  trimRight spaces (trimLeft spaces l).

(** [strings.TrimSpace]: leading white space is removed, then trailing. A
    byte sequence that is not valid UTF-8 decodes to U+FFFD, which is not
    white space, and so stops the trimming. *)
Definition TrimSpace (s : string) : string := ofBytes (trimSpaceBytes (bytes s)).

(** A run of white space: white-space runes one after the other. *)
Inductive blank (toks : list (list ascii)) : list ascii -> Prop :=
  | blank_nil : blank toks []
  | blank_cons t w : t ∈ toks -> blank toks w -> blank toks (t ++ w).

(** No rune of [toks] is the beginning of another one. *)
Definition prefixFreeb (toks : list (list ascii)) : bool :=
  forallb (fun t =>
    forallb (fun t' =>
      match stripPrefix t t' with
      | Some (_ :: _) => false
      | _ => true
      end) toks) toks.

(** UTF-8 continuation bytes, 0x80 to 0xBF. *)
Definition cont (c : ascii) : bool :=
  let n := N_of_ascii c in ((0x80 <=? n) && (n <=? 0xBF))%N.

(** Every rune of [toks] is one byte that is not a continuation byte,
    followed by continuation bytes only. *)
Definition shapeb (toks : list (list ascii)) : bool :=
  forallb (fun t =>
    match t with
    | [] => false
    | a :: r => negb (cont a) && forallb cont r
    end) toks.

Definition nonEmptyb (toks : list (list ascii)) : bool :=
  forallb (fun t => match t with [] => false | _ :: _ => true end) toks.

(** No rune of [toks] contains the byte [sep]. *)
Definition freeOfb (sep : ascii) (toks : list (list ascii)) : bool :=
  forallb (forallb (fun c => negb (Ascii.eqb c sep))) toks.

(** [appLast t u] appends [u] to the last piece of [t]. *)
Fixpoint appLast (t : list (list ascii)) (u : list ascii) : list (list ascii) :=
  match t with
  | [] => []
  | [x] => [x ++ u]
  | x :: t' => x :: appLast t' u
  end.

End GoStrings.

Import GoStrings.

(** ** Data types of [main.go] *)

(** [time.Time], as far as the program observes it: seconds since the epoch
    ([Unix()]) and the nanoseconds within the second. *)
Record Time := { Unix : Z; Nanosecond : Z }.

Record Alert := {
  Labels : gmap string string;
  Annotations : gmap string string;
  StartsAt : Time;
  EndsAt : Time;
  GeneratorURL : string
}.

Record Field := {
  FieldTitle : string;
  FieldValue : string;
  FieldShort : bool
}.

Record Attachment := {
  Fallback : string;
  Color : string;
  Pretext : string;
  AuthorName : string;
  AuthorLink : string;
  Title : string;
  TitleLink : string;
  Text : string;
  Fields : list Field;
  ImageURL : string;
  ThumbURL : string;
  Footer : string;
  FooterIcon : string;
  Timestamp : Z
}.

Record Payload := {
  PayloadText : string;
  Channel : string;
  Username : string;
  IconEmoji : string;
  IconURL : string;
  Attachments : list Attachment
}.

Record Silence := {
  URL : string;
  Duration : Z
}.

(** [TTL]: -1 silence forever, 0 no silence, >0 silence n seconds. *)
Record AlertStatus := {
  StatusAlert : Alert;
  TTL : Z
}.

(** The command line flags. *)
Class Flags := {
  token : string;
  redisURL : string;
  expiration : Z;
  freq : Z;
  listen : string;
  silenceDuration : Z;
  externalURL : string
}.

(** A Go call that returns [(value, err)] and whose value is only read when
    [err == nil]. *)
Inductive Result (A : Type) :=
  | Ok (a : A)
  | Err (e : string).
Arguments Ok {A} a.
Arguments Err {A} e.

(** The collaborators outside the program: [encoding/json] on the program's
    types and the webhook behind [http.Post]. [json.Unmarshal] fills the
    value it is given and reports an error next to it; the program goes on
    with that value in the handlers, so both are kept. *)
Class Externals := {
  json_Marshal_Alert : Alert -> Result string;
  json_Marshal_Silence : Silence -> Result string;
  json_Marshal_Payload : Payload -> Result string;
  json_Unmarshal_Alert : string -> Alert * option string;
  json_Unmarshal_Alerts : string -> list Alert * option string;
  json_Unmarshal_Silence : string -> Silence * option string;
  http_Post : string -> string -> option string
}.

(** ** The Redis server and the [radix.v2] client

    The server is modelled at the level of the commands the program issues.
    A key holds a hash or a set and may carry a time to live, kept as the
    whole seconds the [TTL] command would report. Commands are atomic and the
    connection is reliable, so the only error replies are the server's own:
    a command used on a key that holds the wrong kind of value. *)
Module Redis.

Inductive Value :=
  | VHash (h : gmap string string)
  | VSet (s : gset string).

Record Entry := { value : Value; expire : option N }.

Inductive Command :=
  | SADD (key member : string)
  | SREM (key member : string)
  | SMEMBERS (key : string)
  | HGET (key field : string)
  | HMGET (key : string) (fields : list string)
  | HMSET (key : string) (fv : gmap string string)
  | HSET (key field val : string)
  | TTL (key : string)
  | EXPIRE (key : string) (seconds : Z)
  | PERSIST (key : string).

(** [redis.Resp]: an error reply sets [Err]; otherwise the reply is an
    integer, a simple or bulk string, nil, or an array. *)
#[local] Unset Elimination Schemes.
Inductive Resp :=
  | RErr (e : string)
  | RInt (i : Z)
  | RSimple (s : string)
  | RBulk (s : string)
  | RNil
  | RArray (l : list Resp).
#[local] Set Elimination Schemes.

Definition wrongType : Resp :=
  RErr "WRONGTYPE Operation against a key holding the wrong kind of value".
Definition wrongArgs : Resp := RErr "ERR wrong number of arguments".

Definition bulk (o : option string) : Resp :=
  match o with
  | Some v => RBulk v
  | None => RNil
  end.

Definition exec (c : Command) (d : gmap string Entry) : Resp * gmap string Entry :=
  match c with
  | SADD k m =>
      match d !! k with
      | None => (RInt 1, <[k := {| value := VSet {[m]}; expire := None |}]> d)
      | Some {| value := VSet s; expire := e |} =>
          (RInt (if decide (m ∈ s) then 0 else 1),
           <[k := {| value := VSet ({[m]} ∪ s); expire := e |}]> d)
      | Some {| value := VHash _ |} => (wrongType, d)
      end
  | SREM k m =>
      match d !! k with
      | None => (RInt 0, d)
      | Some {| value := VSet s; expire := e |} =>
          if decide (m ∈ s) then
            (RInt 1,
             if decide (s ∖ {[m]} = ∅) then delete k d
             else <[k := {| value := VSet (s ∖ {[m]}); expire := e |}]> d)
          else (RInt 0, d)
      | Some {| value := VHash _ |} => (wrongType, d)
      end
  | SMEMBERS k =>
      match d !! k with
      | None => (RArray [], d)
      | Some {| value := VSet s |} => (RArray (RBulk <$> elements s), d)
      | Some {| value := VHash _ |} => (wrongType, d)
      end
  | HGET k f =>
      match d !! k with
      | None => (RNil, d)
      | Some {| value := VHash h |} => (bulk (h !! f), d)
      | Some {| value := VSet _ |} => (wrongType, d)
      end
  | HMGET k fs =>
      match fs, d !! k with
      | [], _ => (wrongArgs, d)
      | _, None => (RArray ((fun _ => RNil) <$> fs), d)
      | _, Some {| value := VHash h |} => (RArray ((fun f => bulk (h !! f)) <$> fs), d)
      | _, Some {| value := VSet _ |} => (wrongType, d)
      end
  | HMSET k fv =>
      if decide (fv = ∅) then (wrongArgs, d)
      else
        match d !! k with
        | None => (RSimple "OK", <[k := {| value := VHash fv; expire := None |}]> d)
        | Some {| value := VHash h; expire := e |} =>
            (RSimple "OK", <[k := {| value := VHash (fv ∪ h); expire := e |}]> d)
        | Some {| value := VSet _ |} => (wrongType, d)
        end
  | HSET k f v =>
      match d !! k with
      | None => (RInt 1, <[k := {| value := VHash {[f := v]}; expire := None |}]> d)
      | Some {| value := VHash h; expire := e |} =>
          (RInt (match h !! f with Some _ => 0 | None => 1 end),
           <[k := {| value := VHash (<[f := v]> h); expire := e |}]> d)
      | Some {| value := VSet _ |} => (wrongType, d)
      end
  | TTL k =>
      match d !! k with
      | None => (RInt (-2), d)
      | Some {| expire := None |} => (RInt (-1), d)
      | Some {| expire := Some t |} => (RInt (Z.of_N t), d)
      end
  | EXPIRE k secs =>
      match d !! k with
      | None => (RInt 0, d)
      | Some {| value := v |} =>
          if secs <=? 0 then (RInt 1, delete k d)
          else (RInt 1, <[k := {| value := v; expire := Some (Z.to_N secs) |}]> d)
      end
  | PERSIST k =>
      match d !! k with
      | None => (RInt 0, d)
      | Some {| expire := None |} => (RInt 0, d)
      | Some {| value := v; expire := Some _ |} =>
          (RInt 1, <[k := {| value := v; expire := None |}]> d)
      end
  end.

(** *** Reply accessors of [radix.v2] *)

Definition errBadType : string := "wrong type".
Definition errNotInt : string := "couldn't convert response to int".

(** [Resp.Str]: only for a simple or bulk string. *)
Definition Str (r : Resp) : Result string :=
  match r with
  | RErr e => Err e
  | RSimple s | RBulk s => Ok s
  | _ => Err errBadType
  end.

Definition digit (c : ascii) : option Z :=
  let n := Z.of_N (N_of_ascii c) in
  if (48 <=? n) && (n <=? 57) then Some (n - 48) else None.

Fixpoint digits (acc : Z) (s : string) : option Z :=
  match s with
  | EmptyString => Some acc
  | String c s' =>
      match digit c with
      | Some v => digits (10 * acc + v) s'
      | None => None
      end
  end.

(** [strconv.ParseInt(s, 10, 64)]. *)
Definition parseInt (s : string) : option Z :=
  let '(neg, body) :=
    match s with
    | String "-" s' => (true, s')
    | String "+" s' => (false, s')
    | _ => (false, s)
    end in
  match body with
  | EmptyString => None
  | _ =>
      match digits 0 body with
      | Some v =>
          let n := if neg then - v else v in
          if (- 2 ^ 63 <=? n) && (n <? 2 ^ 63) then Some n else None
      | None => None
      end
  end.

(** [Resp.Int64]: an integer reply, or a string reply that parses as one. *)
Definition Int64 (r : Resp) : Result Z :=
  match r with
  | RErr e => Err e
  | RInt i => Ok i
  | RSimple s | RBulk s =>
      match parseInt s with
      | Some i => Ok i
      | None => Err errNotInt
      end
  | _ => Err errNotInt
  end.

(** [Resp.Int]: Go's [int] has 64 bits on the platform the program is built
    for. *)
Definition Int (r : Resp) : Result Z := Int64 r.

(** [Resp.List]: an array of strings; nil elements read as empty strings. *)
Fixpoint strs (l : list Resp) : Result (list string) :=
  match l with
  | [] => Ok []
  | r :: l' =>
      match (match r with RNil => Ok "" | _ => Str r end) with
      | Err e => Err e
      | Ok s =>
          match strs l' with
          | Err e => Err e
          | Ok ss => Ok (s :: ss)
          end
      end
  end.

Definition List (r : Resp) : Result (list string) :=
  match r with
  | RErr e => Err e
  | RArray l => strs l
  | _ => Err errBadType
  end.

End Redis.

(** ** The program's world and its effects *)

(** One constructor for each logging call of [main.go], with the values it
    prints. *)
Inductive LogEntry :=
  | LogError (err : string)
  | LogUnmarshalAlerts (body : string)
  | LogUnmarshalSilence (body : string)
  | LogExpectedURLList (resp : Redis.Resp)
  | LogExpectedPayload (resp : Redis.Resp)
  | LogRemove (url : string) (resp : Redis.Resp)
  | LogUnmarshalAlert (payload : string)
  | LogMarshalPayload (p : Payload)
  | LogSendFailed (data err : string)
  | LogMarshalAlert (a : Alert) (err : string)
  | LogSaveFailed (url err : string)
  | LogAlreadySilenced (url : string)
  | LogAdded
  | LogExpirationAlreadySet (url : string) (ttl : Z)
  | LogExpirationFailed (url err : string)
  | LogExpirationSet (url : string)
  | LogSilenceFailed (url err : string)
  | LogSilenced (url : string)
  | LogSilencedForever (url : string)
  | LogSilencedDefault (url : string)
  | LogSilencedFor (url : string) (seconds : Z).

(** The server's keyspace, the commands sent through [redisClient] with their
    replies, the log, and the requests posted to the webhook (URL and
    body). *)
Record World := {
  db : gmap string Redis.Entry;
  wire : list (Redis.Command * Redis.Resp);
  logs : list LogEntry;
  posts : list (string * string)
}.

Definition M (A : Type) : Type := World -> A * World.

Definition ret {A} (a : A) : M A := fun w => (a, w).

Definition bind {A B} (m : M A) (k : A -> M B) : M B :=
  fun w => let '(a, w') := m w in k a w'.

Declare Scope prog_scope.
Delimit Scope prog_scope with prog.
Notation "x <- m ;; k" := (bind m (fun x => k))
  (at level 100, m at next level, right associativity) : prog_scope.
Notation "m ;; k" := (bind m (fun _ => k))
  (at level 100, right associativity) : prog_scope.
Local Open Scope prog_scope.

(** [redisClient.Cmd]. *)
Definition Cmd (c : Redis.Command) : M Redis.Resp :=
  fun w =>
    let '(r, d) := Redis.exec c (db w) in
    (r, {| db := d; wire := wire w ++ [(c, r)]; logs := logs w; posts := posts w |}).

(** [log.Print] and [log.Printf]. *)
Definition logf (e : LogEntry) : M unit :=
  fun w => (tt, {| db := db w; wire := wire w; logs := logs w ++ [e]; posts := posts w |}).

(** [http.Post(url, "application/json", data)]. *)
Definition post `{Externals} (url data : string) : M (option string) :=
  fun w =>
    (http_Post url data,
     {| db := db w; wire := wire w; logs := logs w; posts := posts w ++ [(url, data)] |}).

Fixpoint forEach {A} (l : list A) (body : A -> M unit) : M unit :=
  match l with
  | [] => ret tt
  | x :: l' => body x ;; forEach l' body
  end.

(** ** The program *)
Section Program.
Context `{!Flags, !Externals}.

Definition alert_urls : string := "alert_urls".

(** [Alert.toPayloads] *)
Definition toPayloads (a : Alert) : list Payload :=
  let attachment :=
    {| Fallback := ""; Color := "warning"; Pretext := ""; AuthorName := "";
       AuthorLink := "";
       Title := match Annotations a !! "summary" with
                | Some summary => summary
                | None => ""
                end;
       TitleLink := GeneratorURL a;
       Text := match Annotations a !! "description" with
               | Some description => description
               | None => ""
               end;
       Fields := []; ImageURL := ""; ThumbURL := "";
       Footer := match Labels a !! "env" with
                 | Some env => env
                 | None => ""
                 end;
       FooterIcon := "";
       Timestamp := Unix (StartsAt a) |} in
  let s :=
    match json_Marshal_Silence {| URL := GeneratorURL a; Duration := silenceDuration |} with
    | Ok s => s
    | Err _ => ""
    end in
  let silenceCmd :=
    "`curl -XPOST " +:+ externalURL +:+
    "/silence -H 'Content-Type: application/json' -d '" +:+ s +:+ "'`" in
  let payloads : list Payload := [] in
  let payloads :=
    match Labels a !! "users" with
    | Some users =>
        foldl (fun payloads user =>
                 let p := {| Username := "alert-bot"; IconEmoji := ":loudspeaker:";
                             PayloadText := silenceCmd; Attachments := [attachment];
                             Channel := "@" +:+ TrimSpace user; IconURL := "" |} in
                 payloads ++ [p])
              payloads (Split (TrimSpace users) ",")
    | None => payloads
    end in
  let payloads :=
    match Labels a !! "channels" with
    | Some channels =>
        foldl (fun payloads ch =>
                 let p := {| Username := "alert-bot"; IconEmoji := ":loudspeaker:";
                             PayloadText := silenceCmd; Attachments := [attachment];
                             Channel := TrimSpace ch; IconURL := "" |} in
                 payloads ++ [p])
              payloads (Split (TrimSpace channels) ",")
    | None => payloads
    end in
  payloads.

(** [Payload.send] *)
Definition send (p : Payload) : M unit :=
  match json_Marshal_Payload p with
  | Err _ => logf (LogMarshalPayload p)
  | Ok data =>
      err <- post token data ;;
      match err with
      | Some e => logf (LogSendFailed data e)
      | None => ret tt
      end
  end.

(** [Alert.save]: save alert to redis. *)
Definition save (a : Alert) : M unit :=
  match json_Marshal_Alert a with
  | Err err => logf (LogMarshalAlert a err)
  | Ok data =>
      resp <- Cmd (Redis.SADD alert_urls (GeneratorURL a)) ;;
      match Redis.Int resp with
      | Err err => logf (LogSaveFailed (GeneratorURL a) err)
      | Ok _ =>
          (* check alert status *)
          resp <- Cmd (Redis.HGET (GeneratorURL a) "silence") ;;
          if match Redis.Str resp with
             | Ok r => String.eqb r "true"
             | Err _ => false
             end
          then logf (LogAlreadySilenced (GeneratorURL a))
          else
            (* add alert to redis *)
            resp <- Cmd (Redis.HMSET (GeneratorURL a)
                           (<["alert" := data]> (<["silence" := "false"]> ∅))) ;;
            match Redis.Str resp with
            | Err err => logf (LogSaveFailed (GeneratorURL a) err)
            | Ok status =>
                (if String.eqb status "OK" then logf LogAdded else ret tt) ;;
                (* check alert ttl *)
                resp <- Cmd (Redis.TTL (GeneratorURL a)) ;;
                let running :=
                  match Redis.Int resp with
                  | Ok ttl => if 0 <=? ttl then Some ttl else None
                  | Err _ => None
                  end in
                match running with
                | Some ttl => logf (LogExpirationAlreadySet (GeneratorURL a) ttl)
                | None =>
                    (* set expiration *)
                    resp <- Cmd (Redis.EXPIRE (GeneratorURL a) expiration) ;;
                    match Redis.Int resp with
                    | Err err => logf (LogExpirationFailed (GeneratorURL a) err)
                    | Ok statusCode =>
                        if statusCode =? 1
                        then logf (LogExpirationSet (GeneratorURL a))
                        else ret tt
                    end
                end
            end
      end
  end.

(** [Silence.silence]: make alert silence. *)
Definition silence (s : Silence) : M unit :=
  resp <- Cmd (Redis.HSET (URL s) "silence" "true") ;;
  match Redis.Int resp with
  | Err err => logf (LogSilenceFailed (URL s) err)
  | Ok statusCode =>
      (if statusCode =? 1 then logf (LogSilenced (URL s)) else ret tt) ;;
      if Duration s <? 0 then
        (* silence forever *)
        _ <- Cmd (Redis.PERSIST (URL s)) ;;
        logf (LogSilencedForever (URL s))
      else if Duration s =? 0 then
        (* silence for default duration *)
        _ <- Cmd (Redis.EXPIRE (URL s) silenceDuration) ;;
        logf (LogSilencedDefault (URL s))
      else
        (* silence for given duration *)
        _ <- Cmd (Redis.EXPIRE (URL s) (Duration s)) ;;
        logf (LogSilencedFor (URL s) (Duration s))
  end.

(** One iteration of the loop of [getAlerts]: the list [as_] collected so
    far comes back unchanged where the source says [continue]. *)
Definition getAlerts_body (url : string) (as_ : list AlertStatus) : M (list AlertStatus) :=
  resp <- Cmd (Redis.HMGET url ["alert"; "silence"]) ;;
  match Redis.List resp with
  | Err _ => logf (LogExpectedPayload resp) ;; ret as_
  | Ok [result0; result1] =>
      if String.eqb result0 "" then
        (* empty alert means alert expired, url should be removed from
           alert_urls set *)
        resp <- Cmd (Redis.SREM alert_urls url) ;;
        logf (LogRemove url resp) ;;
        ret as_
      else
        match json_Unmarshal_Alert result0 with
        | (_, Some _) => logf (LogUnmarshalAlert result0) ;; ret as_
        | (a, None) =>
            if negb (String.eqb result1 "true") then
              (* not silenced *)
              ret (as_ ++ [{| StatusAlert := a; TTL := 0 |}])
            else
              resp <- Cmd (Redis.TTL url) ;;
              match Redis.Int64 resp with
              | Err _ => ret as_
              | Ok ttl => ret (as_ ++ [{| StatusAlert := a; TTL := ttl |}])
              end
        end
  | Ok _ => ret as_
  end.

Fixpoint getAlerts_loop (urls : list string) (as_ : list AlertStatus) : M (list AlertStatus) :=
  match urls with
  | [] => ret as_
  | url :: urls' =>
      as_ <- getAlerts_body url as_ ;;
      getAlerts_loop urls' as_
  end.

(** [getAlerts] *)
Definition getAlerts : M (list AlertStatus) :=
  resp <- Cmd (Redis.SMEMBERS alert_urls) ;;
  match Redis.List resp with
  | Err _ => logf (LogExpectedURLList resp) ;; ret []
  | Ok urls => getAlerts_loop urls []
  end.

(** [alert]: one scan of the scheduler. *)
Definition alert : M unit :=
  alerts <- getAlerts ;;
  forEach alerts (fun alert =>
    if TTL alert =? 0 then
      forEach (toPayloads (StatusAlert alert)) send
    else ret tt).

(** An HTTP request as the handlers read it: the bytes [ioutil.ReadAll] got
    from the body and the error it reported, if any. *)
Record Request := { Body : string; ReadErr : option string }.

(** [indexHandler]; the result is what is written to the response. *)
Definition indexHandler (r : Request) : M string :=
  (match ReadErr r with
   | Some err => logf (LogError err)
   | None => ret tt
   end) ;;
  let '(alerts, err) := json_Unmarshal_Alerts (Body r) in
  (match err with
   | Some _ => logf (LogUnmarshalAlerts (Body r))
   | None => ret tt
   end) ;;
  forEach alerts save ;;
  ret "ok".

(** [silenceHandler] *)
Definition silenceHandler (r : Request) : M string :=
  (match ReadErr r with
   | Some err => logf (LogError err)
   | None => ret tt
   end) ;;
  let '(s, err) := json_Unmarshal_Silence (Body r) in
  (match err with
   | Some _ => logf (LogUnmarshalSilence (Body r))
   | None => ret tt
   end) ;;
  silence s ;;
  ret "ok".

End Program.

(** ** [listHandler]

    [json.NewEncoder(w).Encode] on the list that [getAlerts] returns is a
    further collaborator outside the program. *)
Class Encoder := {
  json_Encode_Statuses : list AlertStatus -> Result string
}.

Section ListHandler.
Context `{!Flags, !Externals, !Encoder}.

(** [listHandler]; the result is what is written to the response: the
    encoding followed by a newline, or nothing when encoding fails. *)
Definition listHandler (r : Request) : M string :=
  as_ <- getAlerts ;;
  ret (match json_Encode_Statuses as_ with
       | Ok s => s +:+ String "010"%char ""
       | Err _ => ""
       end).

End ListHandler.

(** ** Sample instances

    The theorems below hold for every configuration and for every JSON codec
    and webhook. To run the model on concrete inputs, these instances give
    the default flags and a small line codec in the place of [encoding/json]:
    an alert is written as [alert|<generatorURL>], followed by [|<channels>]
    if it has a [channels] label; the only silence request that parses is
    the empty object, which leaves the zero value, and any other body is
    reported as an error with the value untouched, as Go does for a body
    that is not JSON. *)

#[local] Instance defaultFlags : Flags := {|
  token := "https://hooks.example/T";
  redisURL := "127.0.0.1:6379";
  expiration := 180;
  freq := 60;
  listen := "0.0.0.0:19093";
  silenceDuration := 60 * 60;
  externalURL := "http://molert.example:9093"
|}.

Definition zeroTime : Time := {| Unix := 0; Nanosecond := 0 |}.

Definition zeroAlert : Alert :=
  {| Labels := ∅; Annotations := ∅; StartsAt := zeroTime; EndsAt := zeroTime;
     GeneratorURL := "" |}.

Definition zeroSilence : Silence := {| URL := ""; Duration := 0 |}.

Definition alertAt (url : string) (labels : gmap string string) : Alert :=
  {| Labels := labels; Annotations := ∅; StartsAt := zeroTime; EndsAt := zeroTime;
     GeneratorURL := url |}.

Definition sampleMarshal (a : Alert) : string :=
  "alert|" +:+ GeneratorURL a +:+
  match Labels a !! "channels" with
  | Some channels => "|" +:+ channels
  | None => ""
  end.

Definition sampleUnmarshal (p : string) : Alert * option string :=
  match Split p "|" with
  | tag :: url :: rest =>
      if String.eqb tag "alert" then
        match rest with
        | [] => (alertAt url ∅, None)
        | [channels] => (alertAt url {["channels" := channels]}, None)
        | _ => (zeroAlert, Some "invalid character")
        end
      else (zeroAlert, Some "invalid character")
  | _ => (zeroAlert, Some "invalid character")
  end.

#[local] Instance sampleExternals : Externals := {|
  json_Marshal_Alert a := Ok (sampleMarshal a);
  json_Marshal_Silence s := Ok (URL s);
  json_Marshal_Payload p := Ok (Channel p);
  json_Unmarshal_Alert := sampleUnmarshal;
  json_Unmarshal_Alerts body :=
    match sampleUnmarshal body with
    | (a, None) => ([a], None)
    | (_, Some err) => ([], Some err)
    end;
  json_Unmarshal_Silence body :=
    if String.eqb body "{}" then (zeroSilence, None)
    else (zeroSilence, Some "unexpected end of JSON input");
  http_Post _ _ := None
|}.

Definition emptyWorld : World := {| db := ∅; wire := []; logs := []; posts := [] |}.

(** Sample worlds: after the alert [alertU] was saved, after it was then
    silenced for the default duration, and a store whose known keys are a
    key without record and a key whose payload is not an alert. *)
Definition alertU : Alert := alertAt "u" {["channels" := "ops, releases"]}.

Definition savedWorld : World := (save alertU emptyWorld).2.

Definition silencedWorld : World :=
  (silence {| URL := "u"; Duration := 0 |} savedWorld).2.

Definition staleWorld : World :=
  {| db := {[ "alert_urls" := {| Redis.value := Redis.VSet {[ "gone"; "bad" ]};
                                 Redis.expire := None |};
              "bad" := {| Redis.value := Redis.VHash {[ "alert" := "garbage" ]};
                          Redis.expire := None |} ]};
     wire := []; logs := []; posts := [] |}.

(** ** Reading the store

    What the keyspace [d] holds for a key, in the terms the specification
    uses. *)

(** A field of the hash at [k]; nothing if [k] is absent or not a hash. *)
Definition hashField (d : gmap string Redis.Entry) (k f : string) : option string :=
  match d !! k with
  | Some {| Redis.value := Redis.VHash h |} => h !! f
  | _ => None
  end.

Definition payloadOf (d : gmap string Redis.Entry) (k : string) : option string :=
  hashField d k "alert".

Definition silenceFlag (d : gmap string Redis.Entry) (k : string) : option string :=
  hashField d k "silence".

(** The key's TTL as the server reports it: -2 without the key, -1 without
    an expiry, else the seconds that remain. *)
Definition ttlOf (d : gmap string Redis.Entry) (k : string) : Z :=
  match d !! k with
  | None => -2
  | Some {| Redis.expire := None |} => -1
  | Some {| Redis.expire := Some t |} => Z.of_N t
  end.

(** The known-keys set. *)
Definition knownKeys (d : gmap string Redis.Entry) : gset string :=
  match d !! "alert_urls" with
  | Some {| Redis.value := Redis.VSet s |} => s
  | _ => ∅
  end.

(** What [getAlerts] reads for a key: the [alert] and [silence] fields. *)
Definition readFields (d : gmap string Redis.Entry) (k : string) : Result (list string) :=
  Redis.List (Redis.exec (Redis.HMGET k ["alert"; "silence"]) d).1.

(** The commands that running [m] from [w] sends, with their replies. *)
Definition issued {A} (m : M A) (w : World) : list (Redis.Command * Redis.Resp) :=
  drop (length (wire w)) (wire (m w).2).

Definition isError (r : Redis.Resp) : bool :=
  match r with
  | Redis.RErr _ => true
  | _ => false
  end.

(** No command of the trace was answered with an error. *)
Definition allOk (tr : list (Redis.Command * Redis.Resp)) : bool :=
  forallb (fun cr => negb (isError cr.2)) tr.

(** The key a command works on. *)
Definition cmdKey (c : Redis.Command) : string :=
  match c with
  | Redis.SADD k _ | Redis.SREM k _ | Redis.SMEMBERS k | Redis.HGET k _
  | Redis.HMGET k _ | Redis.HMSET k _ | Redis.HSET k _ _ | Redis.TTL k
  | Redis.EXPIRE k _ | Redis.PERSIST k => k
  end.

(** The command with which [silence] sets the key's expiry. *)
Definition expiryCmd `{!Flags} (s : Silence) : Redis.Command :=
  if Duration s <? 0 then Redis.PERSIST (URL s)
  else if Duration s =? 0 then Redis.EXPIRE (URL s) silenceDuration
  else Redis.EXPIRE (URL s) (Duration s).

(** The requests that sending the messages [ps] posts to the webhook: one
    for each message that marshals. *)
Definition requests `{!Flags, !Externals} (ps : list Payload) : list (string * string) :=
  omap (fun p =>
          match json_Marshal_Payload p with
          | Ok data => Some (token, data)
          | Err _ => None
          end) ps.

(** ** The entry of a key, as the specification words [list]

    Payload empty: no entry. Payload that does not parse: no entry. Not
    silenced: the alert with TTL 0. Silenced: the alert with the key's
    remaining TTL. [getAlerts] is compared with this definition below. *)
Definition entryOf `{!Externals} (d : gmap string Redis.Entry) (url : string)
    : option AlertStatus :=
  match readFields d url with
  | Ok [payload; flag] =>
      if String.eqb payload "" then None
      else
        match json_Unmarshal_Alert payload with
        | (a, None) =>
            Some {| StatusAlert := a;
                    TTL := if String.eqb flag "true" then ttlOf d url else 0 |}
        | (_, Some _) => None
        end
  | _ => None
  end.

(** Two keyspaces hold the same record for every alert key. The scan only
    ever changes [alert_urls], which is a set or gone and so has no record. *)
Definition notHash (o : option Redis.Entry) : Prop :=
  match o with
  | Some {| Redis.value := Redis.VHash _ |} => False
  | _ => True
  end.

Definition sameRecords (d d' : gmap string Redis.Entry) : Prop :=
  forall k, d' !! k = d !! k
            \/ (k = "alert_urls" /\ notHash (d !! k) /\ notHash (d' !! k)).

(** ** The recipients as the specification words them

    One recipient per comma-separated entry of the label, the entry trimmed
    of white space and addressed with [marker]; none when the label is
    absent. [toPayloads] is compared with this definition below. *)
Definition recipients_spec (marker : string) (label : option string) : list string :=
  match label with
  | Some entries => (fun entry => marker +:+ TrimSpace entry) <$> Split entries ","
  | None => []
  end.

(** ** Further vocabulary for the store *)

(** The text of the server's reply to a command on a key that holds the
    wrong kind of value. *)
Definition wrongTypeMsg : string :=
  "WRONGTYPE Operation against a key holding the wrong kind of value".

(** The record of key [k] is one that a [save] of the payload [data] leaves
    as it is. *)
Definition settled `{!Flags} (data : string) (d : gmap string Redis.Entry) (k : string)
    : Prop :=
  match d !! k with
  | Some {| Redis.value := Redis.VSet _ |} => True
  | Some {| Redis.value := Redis.VHash h; Redis.expire := e |} =>
      h !! "silence" = Some "true"
      \/ (h !! "alert" = Some data /\ h !! "silence" = Some "false" /\ is_Some e)
  | None => expiration <= 0
  end.

(** The TTL that a silence request asks for; -1 stands for no expiry. *)
Definition silenceTTL `{!Flags} (s : Silence) : Z :=
  if Duration s <? 0 then -1
  else if Duration s =? 0 then silenceDuration
  else Duration s.

(** The payload that [getAlerts] reads for the key is empty: the key is
    absent, or is a hash without the field [alert] or with an empty one. *)
Definition stale (d : gmap string Redis.Entry) (k : string) : bool :=
  match readFields d k with
  | Ok (payload :: _) => String.eqb payload ""
  | _ => false
  end.

(** The number of commas in a label. *)
Definition commas (s : string) : nat :=
  length (filter (fun c => c = ","%char) (GoStrings.bytes s)).

(** ** Further sample inputs

    An encoder that writes the number of entries in unary, the zero value
    of a message, a store in which [alert_urls] holds a hash, and a store in
    which the key of [alertU] holds a set. *)
#[local] Instance sampleEncoder : Encoder := {|
  json_Encode_Statuses l := Ok (String.concat "" ((fun _ => "*") <$> l))
|}.

Definition zeroPayload : Payload :=
  {| PayloadText := ""; Channel := ""; Username := ""; IconEmoji := ""; IconURL := "";
     Attachments := [] |}.

Definition hashedWorld : World :=
  {| db := {[ "alert_urls" := {| Redis.value := Redis.VHash {[ "alert" := "x" ]};
                                 Redis.expire := None |} ]};
     wire := []; logs := []; posts := [] |}.

Definition clashWorld : World :=
  {| db := {[ "u" := {| Redis.value := Redis.VSet {[ "member" ]};
                        Redis.expire := None |} ]};
     wire := []; logs := []; posts := [] |}.

(** * Theorems *)

(** ** The model on small inputs *)

Example Split_list : Split "ops, releases" "," = ["ops"; " releases"].
Proof. reflexivity. Qed.

Example Split_empty : Split "" "," = [""].
Proof. reflexivity. Qed.

Example Split_commas : Split ",a,," "," = [""; "a"; ""; ""].
Proof. reflexivity. Qed.

Example TrimSpace_unicode :
  TrimSpace (ofBytes (utf8 0xA0 ++ bytes "  ops	" ++ utf8 0x3000)) = "ops".
Proof. vm_compute. reflexivity. Qed.

Example TrimSpace_inner : TrimSpace " a b " = "a b".
Proof. vm_compute. reflexivity. Qed.

Example sample_codec_roundtrip : sampleUnmarshal (sampleMarshal alertU) = (alertU, None).
Proof. vm_compute. reflexivity. Qed.

Example scan_two_channels :
  let a := {| Labels := {["channels" := "ops, releases"]};
              Annotations := {["summary" := "disk full"]};
              StartsAt := zeroTime; EndsAt := zeroTime; GeneratorURL := "u" |} in
  (fun p => (Channel p, Title <$> Attachments p)) <$> toPayloads a =
  [("ops", ["disk full"]); ("releases", ["disk full"])].
Proof. vm_compute. reflexivity. Qed.

Example scan_after_silence : posts (alert silencedWorld).2 = [].
Proof. vm_compute. reflexivity. Qed.

(** ** Facts about [Split] and [TrimSpace] *)
Module GoStringsFacts.

Lemma stripPrefix_spec t l r : stripPrefix t l = Some r <-> l = t ++ r.
Proof.
  revert l. induction t as [|c t IH]; intros l; simpl.
  - split; congruence.
  - destruct l as [|d l]; [split; discriminate|].
    destruct (Ascii.eqb_spec c d) as [->|Hne].
    + rewrite IH. split; congruence.
    + split; [discriminate|]. intros [= ? ?]. congruence.
Qed.

Lemma stripAny_Some toks l r :
  stripAny toks l = Some r -> exists t, t ∈ toks /\ l = t ++ r.
Proof.
  induction toks as [|t ts IH]; simpl; [discriminate|].
  destruct (stripPrefix t l) as [r'|] eqn:E.
  - intros [= ->]. exists t. split; [left|]. by apply stripPrefix_spec.
  - intros (t' & ? & ?)%IH. exists t'. split; [by right|done].
Qed.

Lemma stripAny_None toks l t r :
  stripAny toks l = None -> t ∈ toks -> l <> t ++ r.
Proof.
  induction toks as [|t0 ts IH]; simpl; intros Hn Hin; [by inversion Hin|].
  destruct (stripPrefix t0 l) as [r'|] eqn:E; [discriminate|].
  apply elem_of_cons in Hin as [->|Hin]; [|by apply IH].
  intros Heq%stripPrefix_spec. congruence.
Qed.

Section Shape.
Variable toks : list (list ascii).
Hypothesis SH : shapeb toks = true.

Lemma tok_shape t :
  t ∈ toks -> exists a r, t = a :: r /\ cont a = false /\ Forall (fun c => cont c = true) r.
Proof.
  intros Hin. unfold shapeb in SH. rewrite forallb_forall in SH.
  apply list_elem_of_In, SH in Hin. destruct t as [|a r]; [discriminate|].
  apply andb_true_iff in Hin as [Ha Hr]. exists a, r. split; [done|]. split.
  - by destruct (cont a).
  - apply Forall_forall. intros c Hc. rewrite forallb_forall in Hr.
    by apply Hr, list_elem_of_In.
Qed.

Lemma blank_head w :
  blank toks w -> w <> [] -> exists a r, w = a :: r /\ cont a = false.
Proof.
  induction 1 as [|t w Ht _ _]; [done|]. intros _.
  apply tok_shape in Ht as (a & r & -> & Ha & _). by exists a, (r ++ w).
Qed.

(** White space put after a string that does not start with white space
    does not make it start with white space: a rune cannot begin in the
    string and end in the run, since its later bytes are continuation bytes
    and a run starts with a byte that is not. *)
Lemma no_straddle y w :
  y <> [] -> stripAny toks y = None -> blank toks w -> stripAny toks (y ++ w) = None.
Proof.
  intros Hy Hc Hw. destruct (stripAny toks (y ++ w)) as [r|] eqn:E; [|done].
  exfalso. apply stripAny_Some in E as (t & Ht & Heq).
  apply app_eq_app in Heq as [k [[Hyt _]|[Hty Hwk]]].
  - by eapply stripAny_None in Hc.
  - destruct k as [|c k].
    { rewrite app_nil_r in Hty. subst t.
      eapply stripAny_None in Hc; [|exact Ht]. apply Hc. by rewrite app_nil_r. }
    apply tok_shape in Ht as (a & r' & Hshape & _ & Hr').
    destruct y as [|b y]; [done|]. rewrite Hty in Hshape. simpl in Hshape.
    injection Hshape as _ <-.
    apply Forall_app in Hr' as [_ Hck]. apply Forall_cons in Hck as [Hc' _].
    destruct (blank_head w Hw) as (a' & r'' & Hw' & Ha'); [by rewrite Hwk|].
    rewrite Hw' in Hwk. simpl in Hwk. injection Hwk as -> _. congruence.
Qed.

End Shape.

Section Runes.
Variable toks : list (list ascii).
Hypothesis PF : prefixFreeb toks = true.
Hypothesis NE : nonEmptyb toks = true.

Lemma tok_prefix_free t t' r r' :
  t ∈ toks -> t' ∈ toks -> t ++ r = t' ++ r' -> t = t'.
Proof.
  intros Ht Ht' Heq. unfold prefixFreeb in PF. rewrite forallb_forall in PF.
  assert (Hpf : forall a b k, a ∈ toks -> b ∈ toks -> b = a ++ k -> k = []).
  { intros a b k Ha Hb ->. apply list_elem_of_In, PF in Ha.
    rewrite forallb_forall in Ha. apply list_elem_of_In, Ha in Hb.
    destruct (stripPrefix a (a ++ k)) as [k'|] eqn:E.
    - apply stripPrefix_spec, app_inv_head in E. subst k'. by destruct k.
    - assert (stripPrefix a (a ++ k) = Some k) by by apply stripPrefix_spec.
      congruence. }
  apply app_eq_app in Heq as [k [[-> _]|[-> _]]].
  - rewrite (Hpf t' (t' ++ k) k); auto using app_nil_r.
  - rewrite (Hpf t (t ++ k) k); auto using app_nil_r.
Qed.

Lemma stripAny_tok t l : t ∈ toks -> stripAny toks (t ++ l) = Some l.
Proof.
  intros Ht. destruct (stripAny toks (t ++ l)) as [r|] eqn:E.
  - apply stripAny_Some in E as (t' & Ht' & Heq).
    pose proof (tok_prefix_free _ _ _ _ Ht Ht' Heq) as <-.
    by apply app_inv_head in Heq as ->.
  - by eapply stripAny_None in E.
Qed.

Lemma stripAny_shorter l r : stripAny toks l = Some r -> (length r < length l)%nat.
Proof.
  intros (t & Ht & ->)%stripAny_Some. unfold nonEmptyb in NE.
  rewrite forallb_forall in NE. apply list_elem_of_In, NE in Ht.
  destruct t; [discriminate|]. rewrite length_app. simpl. lia.
Qed.

Lemma trimLeftN_fuel n m l :
  (length l <= n)%nat -> (length l <= m)%nat -> trimLeftN toks n l = trimLeftN toks m l.
Proof.
  revert m l. induction n as [|n IH]; intros m l Hn Hm.
  - destruct l; [|simpl in Hn; lia]. destruct m; simpl; [done|].
    destruct (stripAny toks []) eqn:E; [|done].
    apply stripAny_shorter in E. simpl in E. lia.
  - destruct m as [|m]; simpl.
    + destruct l; [|simpl in Hm; lia].
      destruct (stripAny toks []) eqn:E; [|done].
      apply stripAny_shorter in E. simpl in E. lia.
    + destruct (stripAny toks l) as [r|] eqn:E; [|done].
      apply stripAny_shorter in E. apply IH; lia.
Qed.

Lemma trimLeft_step l r : stripAny toks l = Some r -> trimLeft toks l = trimLeft toks r.
Proof.
  intros E. unfold trimLeft. pose proof (stripAny_shorter _ _ E).
  destruct (length l) as [|n] eqn:El; [lia|]. simpl. rewrite E.
  apply trimLeftN_fuel; lia.
Qed.

Lemma trimLeft_clean l : stripAny toks l = None -> trimLeft toks l = l.
Proof.
  intros E. unfold trimLeft. destruct (length l); simpl; [done|]. by rewrite E.
Qed.

(** What [trimLeft] removes is a run of white space, and what it leaves does
    not start with white space. *)
Lemma trimLeft_split l :
  exists w, blank toks w /\ l = w ++ trimLeft toks l
            /\ stripAny toks (trimLeft toks l) = None.
Proof.
  remember (length l) as n eqn:Hn. revert l Hn.
  induction n as [n IH] using lt_wf_ind. intros l ->.
  destruct (stripAny toks l) as [r|] eqn:E.
  - pose proof (stripAny_shorter _ _ E) as Hlt.
    destruct (IH _ Hlt r eq_refl) as (w & Hw & Hr & Hc).
    apply stripAny_Some in E as Et. destruct Et as (t & Ht & ->).
    rewrite (trimLeft_step _ _ E). exists (t ++ w). split; [by constructor|].
    split; [|done]. rewrite <- app_assoc. by rewrite <- Hr.
  - rewrite (trimLeft_clean _ E). exists []. split; [constructor|done].
Qed.

Lemma trimLeft_blank_app w l : blank toks w -> trimLeft toks (w ++ l) = trimLeft toks l.
Proof.
  induction 1 as [|t w Ht _ IH]; [done|].
  rewrite <- app_assoc. rewrite (trimLeft_step _ (w ++ l)); [done|].
  by apply stripAny_tok.
Qed.

Lemma trimLeft_blank w : blank toks w -> trimLeft toks w = [].
Proof.
  intros Hw. rewrite <- (app_nil_r w). by rewrite trimLeft_blank_app.
Qed.

Lemma blank_app w1 w2 : blank toks w1 -> blank toks w2 -> blank toks (w1 ++ w2).
Proof.
  induction 1 as [|t w Ht _ IH]; [done|]. intros Hw2.
  rewrite <- app_assoc. constructor; auto.
Qed.

End Runes.

Lemma blank_single toks t : t ∈ toks -> blank toks t.
Proof. intros Ht. rewrite <- (app_nil_r t). constructor; [done|constructor]. Qed.

Lemma blank_reverse toks w : blank toks w -> blank (reverse <$> toks) (reverse w).
Proof.
  induction 1 as [|t w Ht _ IH]; [constructor|].
  rewrite reverse_app. apply blank_app; [done|].
  apply blank_single. by apply list_elem_of_fmap_2.
Qed.

Lemma blank_unreverse toks w : blank (reverse <$> toks) (reverse w) -> blank toks w.
Proof.
  intros Hw%blank_reverse. rewrite reverse_involutive in Hw.
  rewrite <- list_fmap_compose in Hw.
  assert (reverse ∘ reverse <$> toks = toks) as Hid.
  { clear. induction toks as [|t ts IH]; [done|]. rewrite fmap_cons, IH.
    unfold compose. by rewrite reverse_involutive. }
  by rewrite Hid in Hw.
Qed.

Lemma blank_free sep toks w : freeOfb sep toks = true -> blank toks w -> sep ∉ w.
Proof.
  intros Hf. induction 1 as [|t w Ht _ IH]; [by apply not_elem_of_nil|].
  rewrite elem_of_app. intros [Hin|Hin]; [|done].
  unfold freeOfb in Hf. rewrite forallb_forall in Hf.
  apply list_elem_of_In, Hf in Ht. rewrite forallb_forall in Ht.
  apply list_elem_of_In, Ht in Hin. by rewrite Ascii.eqb_refl in Hin.
Qed.

(** *** The white-space runes of [TrimSpace] *)

Lemma spaces_PF : prefixFreeb spaces = true.
Proof. vm_compute. reflexivity. Qed.
Lemma spaces_NE : nonEmptyb spaces = true.
Proof. vm_compute. reflexivity. Qed.
Lemma spaces_SH : shapeb spaces = true.
Proof. vm_compute. reflexivity. Qed.
Lemma rspaces_PF : prefixFreeb rspaces = true.
Proof. vm_compute. reflexivity. Qed.
Lemma rspaces_NE : nonEmptyb rspaces = true.
Proof. vm_compute. reflexivity. Qed.
Lemma spaces_comma : freeOfb "," spaces = true.
Proof. vm_compute. reflexivity. Qed.

Lemma trimRight_split l :
  exists w, blank spaces w /\ l = trimRight spaces l ++ w.
Proof.
  destruct (trimLeft_split rspaces rspaces_NE (reverse l)) as (w & Hw & Hl & _).
  exists (reverse w). split.
  - apply blank_unreverse. by rewrite reverse_involutive.
  - unfold trimRight. fold rspaces. rewrite <- reverse_app, <- Hl.
    by rewrite reverse_involutive.
Qed.

Lemma trimRight_blank_app l w :
  blank spaces w -> trimRight spaces (l ++ w) = trimRight spaces l.
Proof.
  intros Hw. unfold trimRight. fold rspaces. rewrite reverse_app.
  rewrite (trimLeft_blank_app rspaces rspaces_PF rspaces_NE); [done|].
  by apply blank_reverse.
Qed.

Lemma trimSpaceBytes_blank_l w x :
  blank spaces w -> trimSpaceBytes (w ++ x) = trimSpaceBytes x.
Proof.
  intros Hw. unfold trimSpaceBytes.
  by rewrite (trimLeft_blank_app spaces spaces_PF spaces_NE).
Qed.

Lemma trimSpaceBytes_blank_r x w :
  blank spaces w -> trimSpaceBytes (x ++ w) = trimSpaceBytes x.
Proof.
  intros Hw. unfold trimSpaceBytes.
  destruct (trimLeft_split spaces spaces_NE x) as (w0 & Hw0 & Hx & Hclean).
  remember (trimLeft spaces x) as y eqn:Hy.
  assert (trimLeft spaces (x ++ w) = trimLeft spaces (y ++ w)) as ->.
  { rewrite Hx at 1. rewrite <- app_assoc.
    by apply (trimLeft_blank_app spaces spaces_PF spaces_NE). }
  destruct y as [|b y].
  - simpl. by rewrite (trimLeft_blank spaces spaces_PF spaces_NE).
  - rewrite (trimLeft_clean spaces).
    + by apply trimRight_blank_app.
    + by apply (no_straddle spaces spaces_SH).
Qed.

(** A string is its trimmed middle between two runs of white space. *)
Lemma trimSpaceBytes_split l :
  exists w w', blank spaces w /\ blank spaces w' /\ l = w ++ trimSpaceBytes l ++ w'.
Proof.
  destruct (trimLeft_split spaces spaces_NE l) as (w & Hw & Hl & _).
  destruct (trimRight_split (trimLeft spaces l)) as (w' & Hw' & Hr).
  exists w, w'. split; [done|]. split; [done|].
  unfold trimSpaceBytes. by rewrite <- Hr.
Qed.

(** *** Splitting a padded string *)

Lemma split1_free sep u : sep ∉ u -> split1 sep u = (u, []).
Proof.
  induction u as [|c u IH]; [done|]. intros Hn. simpl.
  rewrite IH; [|by intros ?; apply Hn; right].
  destruct (Ascii.eqb_spec c sep) as [->|]; [|done]. exfalso. apply Hn. left.
Qed.

Lemma split1_app_l sep u l :
  sep ∉ u ->
  split1 sep (u ++ l) = let '(h, t) := split1 sep l in (u ++ h, t).
Proof.
  induction u as [|c u IH]; intros Hn; simpl.
  - by destruct (split1 sep l).
  - rewrite IH; [|by intros ?; apply Hn; right].
    destruct (split1 sep l) as [h t].
    destruct (Ascii.eqb_spec c sep) as [->|]; [|done]. exfalso. apply Hn. left.
Qed.

Lemma split1_app_r sep l u :
  sep ∉ u ->
  split1 sep (l ++ u) =
    let '(h, t) := split1 sep l in
    match t with
    | [] => (h ++ u, [])
    | _ :: _ => (h, appLast t u)
    end.
Proof.
  intros Hn. induction l as [|c l IH]; simpl.
  - by apply split1_free.
  - rewrite IH. destruct (split1 sep l) as [h t].
    destruct (Ascii.eqb c sep); by destruct t.
Qed.

Lemma map_appLast {B} (f : list ascii -> B) t u :
  (forall x, f (x ++ u) = f x) -> f <$> appLast t u = f <$> t.
Proof.
  intros Hf. induction t as [|x t IH]; [done|].
  destruct t as [|x' t]; [simpl; by rewrite Hf|].
  change (f x :: (f <$> appLast (x' :: t) u) = f x :: (f <$> x' :: t)).
  by rewrite IH.
Qed.

Lemma map_splitBytes_padded {B} (f : list ascii -> B) sep w z w' :
  (forall x, f (w ++ x) = f x) -> (forall x, f (x ++ w') = f x) ->
  sep ∉ w -> sep ∉ w' ->
  f <$> splitBytes sep (w ++ z ++ w') = f <$> splitBytes sep z.
Proof.
  intros Hl Hr Hw Hw'. unfold splitBytes.
  rewrite split1_app_l, split1_app_r by done.
  destruct (split1 sep z) as [h t]. destruct t as [|x t].
  - simpl. by rewrite Hl, Hr.
  - change (f (w ++ h) :: (f <$> appLast (x :: t) w') = f h :: (f <$> x :: t)).
    by rewrite Hl, map_appLast.
Qed.

Lemma bytes_ofBytes l : bytes (ofBytes l) = l.
Proof. apply list_ascii_of_string_of_list_ascii. Qed.

Lemma ofBytes_bytes s : ofBytes (bytes s) = s.
Proof. apply string_of_list_ascii_of_string. Qed.

(** Trimming the whole list first does not change its trimmed entries: the
    white space around the list is the white space before its first entry
    and after its last one. *)
Lemma TrimSpace_Split_TrimSpace s :
  TrimSpace <$> Split (TrimSpace s) "," = TrimSpace <$> Split s ",".
Proof.
  unfold Split, TrimSpace. rewrite bytes_ofBytes, <- !list_fmap_compose.
  destruct (trimSpaceBytes_split (bytes s)) as (w & w' & Hw & Hw' & Hs).
  rewrite Hs at 2.
  set (f := (fun s0 => ofBytes (trimSpaceBytes (bytes s0))) ∘ ofBytes).
  symmetry. apply map_splitBytes_padded.
  - intros x. unfold f. simpl. rewrite !bytes_ofBytes.
    by rewrite trimSpaceBytes_blank_l.
  - intros x. unfold f. simpl. rewrite !bytes_ofBytes.
    by rewrite trimSpaceBytes_blank_r.
  - by apply (blank_free _ spaces), Hw; apply spaces_comma.
  - by apply (blank_free _ spaces), Hw'; apply spaces_comma.
Qed.

Lemma Split_nonempty s sep : Split s sep <> [].
Proof. unfold Split, splitBytes. by destruct (split1 sep (bytes s)). Qed.

Lemma Split_TrimSpace_length s :
  length (Split (TrimSpace s) ",") = length (Split s ",").
Proof.
  rewrite <- (length_fmap TrimSpace), TrimSpace_Split_TrimSpace.
  by rewrite length_fmap.
Qed.

End GoStringsFacts.

(** ** [Alert.toPayloads] *)
Section ToPayloads.
Context `{!Flags, !Externals}.

Lemma foldl_append {A B} (g : A -> B) (l : list A) (acc : list B) :
  foldl (fun acc x => acc ++ [g x]) acc l = acc ++ (g <$> l).
Proof.
  revert acc. induction l as [|x l IH]; intros acc; simpl.
  - by rewrite app_nil_r.
  - rewrite IH. by rewrite <- app_assoc.
Qed.

Lemma recipients_code marker entries :
  (fun entry => marker +:+ TrimSpace entry) <$> Split (TrimSpace entries) "," =
  recipients_spec marker (Some entries).
Proof.
  unfold recipients_spec.
  rewrite !(list_fmap_compose TrimSpace (String.append marker)).
  by rewrite GoStringsFacts.TrimSpace_Split_TrimSpace.
Qed.

Lemma toPayloads_channels a :
  Channel <$> toPayloads a =
  recipients_spec "@" (Labels a !! "users") ++ recipients_spec "" (Labels a !! "channels").
Proof.
  unfold toPayloads.
  destruct (Labels a !! "users") as [users|], (Labels a !! "channels") as [channels|];
    rewrite <- ?recipients_code, ?foldl_append, ?fmap_app, <- ?list_fmap_compose;
    simpl; rewrite ?app_nil_r; reflexivity.
Qed.

(** C8. An alert with neither a [users] nor a [channels] label yields no
    message. In general the recipients of the messages are, in order, one
    per comma-separated entry of [labels.users], the trimmed entry after the
    marker [@], then one per comma-separated entry of [labels.channels], the
    trimmed entry with no marker; an absent label contributes none. *)
Theorem toPayloads_recipients (a : Alert) :
  (Labels a !! "users" = None -> Labels a !! "channels" = None -> toPayloads a = [])
  /\ Channel <$> toPayloads a =
       ((fun entry => "@" +:+ TrimSpace entry) <$>
          match Labels a !! "users" with
          | Some users => Split users ","
          | None => []
          end) ++
       (TrimSpace <$>
          match Labels a !! "channels" with
          | Some channels => Split channels ","
          | None => []
          end).
Proof.
  split.
  - intros Hu Hc. unfold toPayloads. by rewrite Hu, Hc.
  - rewrite toPayloads_channels. unfold recipients_spec.
    by destruct (Labels a !! "users"), (Labels a !! "channels").
Qed.

(** C9. A label that is present and empty is not an absent label: an empty
    [users] label yields one message, addressed to [@], before the messages
    of the channels; an empty [channels] label yields one message with an
    empty recipient, after the messages of the users. *)
Theorem toPayloads_empty_label (a : Alert) :
  (Labels a !! "users" = Some "" ->
   Channel <$> toPayloads a = "@" :: recipients_spec "" (Labels a !! "channels"))
  /\ (Labels a !! "channels" = Some "" ->
      Channel <$> toPayloads a = recipients_spec "@" (Labels a !! "users") ++ [""]).
Proof.
  split; intros Hl; rewrite toPayloads_channels, Hl; reflexivity.
Qed.

End ToPayloads.

(** ** Running the program *)

Lemma Cmd_run c w :
  Cmd c w =
  ((Redis.exec c (db w)).1,
   {| db := (Redis.exec c (db w)).2;
      wire := wire w ++ [(c, (Redis.exec c (db w)).1)];
      logs := logs w; posts := posts w |}).
Proof. unfold Cmd. by destruct (Redis.exec c (db w)). Qed.

Lemma bind_run {A B} (m : M A) (k : A -> M B) w : bind m k w = k (m w).1 (m w).2.
Proof. unfold bind. by destruct (m w). Qed.

Ltac run := rewrite ?bind_run, ?Cmd_run; cbn [fst snd db wire logs posts logf ret].

Ltac lookups := repeat first
  [ rewrite lookup_insert_eq
  | rewrite lookup_insert_ne by done
  | rewrite lookup_delete_eq
  | rewrite lookup_delete_ne by done
  | match goal with H : ?d !! ?k = _ |- context [?d !! ?k] => rewrite H end
  | rewrite (decide_False (P := _ = ∅)) by apply insert_non_empty ].

(** Runs the program as far as the replies are known. *)
Ltac go := repeat (progress (run;
  try change (0 <=? -1) with false; try change (0 <=? -2) with false;
  try change (0 =? 1) with false; rewrite ?Z.eqb_refl;
  cbn [Redis.exec Redis.Int Redis.Int64 Redis.Str Redis.bulk Redis.wrongType fst snd
       String.eqb Ascii.eqb Bool.eqb isError negb];
  lookups)).

(** A command leaves every other key as it is. *)
Lemma exec_frame c d k : k <> cmdKey c -> (Redis.exec c d).2 !! k = d !! k.
Proof.
  intros Hk. destruct c; cbn in Hk |- *;
    repeat match goal with
    | |- context [match ?d !! ?k with _ => _ end] => destruct (d !! k) as [[[?|?] [?|]]|]
    | |- context [match ?l with [] => _ | _ :: _ => _ end] => destruct l
    | |- context [decide ?P] => destruct (decide P)
    | |- context [?a <=? ?b] => destruct (a <=? b)
    end; cbn; rewrite ?lookup_insert_ne, ?lookup_delete_ne by done; done.
Qed.

(** ** [Alert.save] *)
Section Save.
Context `{flags : !Flags, externals : !Externals}.

Lemma SADD_adds d k :
  isError (Redis.exec (Redis.SADD alert_urls k) d).1 = false ->
  knownKeys (Redis.exec (Redis.SADD alert_urls k) d).2 = {[k]} ∪ knownKeys d.
Proof.
  unfold knownKeys. change "alert_urls" with alert_urls. cbn [Redis.exec].
  destruct (d !! alert_urls) as [[[h|s] e]|]; cbn [fst snd isError Redis.wrongType];
    [done| |]; intros _; rewrite lookup_insert_eq; [done|].
  by rewrite (right_id_L (∅ : gset string) (∪)).
Qed.

(** C1. While the key is stored with silence flag [true], [save] leaves the
    key's record as it is: payload, silence flag and TTL are unchanged. Its
    only effect is the add to [alert_urls]: when the alert marshals, the
    store after the call is exactly the store after the [SADD], so no key
    other than [alert_urls] changes, and when the [SADD] is answered the key
    is in the set after the call, the call having sent [SADD] and the read
    of the flag and nothing else, and logged that the alert is silenced.
    (An alert that does not marshal is logged and nothing is sent.) *)
Theorem save_silenced (a : Alert) (w : World) :
  silenceFlag (db w) (GeneratorURL a) = Some "true" ->
  let k := GeneratorURL a in
  let sadd := Redis.SADD alert_urls k in
  let w' := (save a w).2 in
  payloadOf (db w') k = payloadOf (db w) k
  /\ silenceFlag (db w') k = Some "true"
  /\ ttlOf (db w') k = ttlOf (db w) k
  /\ (forall data,
        json_Marshal_Alert a = Ok data ->
        db w' = (Redis.exec sadd (db w)).2
        /\ (forall k', k' <> alert_urls -> db w' !! k' = db w !! k')
        /\ (isError (Redis.exec sadd (db w)).1 = false ->
            k ∈ knownKeys (db w')
            /\ knownKeys (db w') = {[k]} ∪ knownKeys (db w)
            /\ (exists added,
                  issued (save a) w =
                  [(sadd, Redis.RInt added); (Redis.HGET k "silence", Redis.RBulk "true")])
            /\ logs w' = logs w ++ [LogAlreadySilenced k]))
  /\ (forall err, json_Marshal_Alert a = Err err -> db w' = db w).
Proof.
  intros Hs k sadd w'. subst sadd w'.
  set (d1 := (Redis.exec (Redis.SADD alert_urls k) (db w)).2).
  assert (Hrec : exists h e, db w !! k = Some {| Redis.value := Redis.VHash h;
                                                 Redis.expire := e |}
                             /\ h !! "silence" = Some "true").
  { unfold silenceFlag, hashField in Hs. fold k in Hs.
    destruct (db w !! k) as [[[h|s] e]|]; try done. by eexists _, _. }
  destruct Hrec as (h & e & Ek & Hflag).
  assert (Hother : forall k', k' <> alert_urls -> d1 !! k' = db w !! k').
  { intros k' Hk'. subst d1. by apply exec_frame. }
  assert (Hkey : d1 !! k = db w !! k).
  { destruct (decide (k = alert_urls)) as [Heq|Hne]; [|by apply Hother].
    subst d1. rewrite Heq in *. cbn [Redis.exec]. by rewrite Ek. }
  assert (Hget : (Redis.exec (Redis.HGET k "silence") d1) = (Redis.RBulk "true", d1)).
  { cbn [Redis.exec]. rewrite Hkey, Ek, Hflag. done. }
  assert (Hdb : forall data, json_Marshal_Alert a = Ok data -> db (save a w).2 = d1).
  { intros data Hm. unfold save. rewrite Hm. fold k. run. fold d1.
    destruct (Redis.Int _); [|done]. run. by rewrite Hget. }
  assert (Hdb' : db (save a w).2 = d1 \/ db (save a w).2 = db w).
  { destruct (json_Marshal_Alert a) as [data|err] eqn:Hm; [left; by eapply Hdb|].
    right. unfold save. by rewrite Hm. }
  assert (Hsame : db (save a w).2 !! k = db w !! k).
  { by destruct Hdb' as [-> | ->]. }
  unfold payloadOf, silenceFlag, ttlOf, hashField. rewrite Hsame, Ek.
  split; [done|]. split; [done|]. split; [done|]. split.
  - intros data Hm. rewrite (Hdb data Hm). split; [done|]. split; [done|].
    intros Hok. pose proof (SADD_adds _ _ Hok) as Hk. fold d1 in Hk. rewrite Hk.
    split; [apply elem_of_union_l; by apply elem_of_singleton|]. split; [done|].
    assert (Hint : exists added, (Redis.exec (Redis.SADD alert_urls k) (db w)).1
                                 = Redis.RInt added).
    { revert Hok. cbn [Redis.exec].
      destruct (db w !! alert_urls) as [[[h'|s'] e']|]; cbn [fst isError Redis.wrongType];
        [done| |]; intros _; by eexists. }
    destruct Hint as [added Hint].
    unfold issued, save. rewrite Hm. fold k. run. fold d1. rewrite Hint.
    cbn [Redis.Int Redis.Int64]. run. rewrite Hget.
    cbn [fst snd Redis.Str String.eqb Ascii.eqb Bool.eqb]. run.
    split; [|done]. exists added. by rewrite <- !app_assoc, drop_app_length.
  - intros err Hm. unfold save. by rewrite Hm.
Qed.

(** C2. On a key that is absent from the store, a [save] whose commands
    are all answered without error sends [HMSET] with the payload and
    silence flag [false], finds no TTL, and sends [EXPIRE] with the
    configured expiration; with a positive expiration the store then holds
    the payload, silence flag [false] and a TTL equal to the expiration (an
    expiration that is not positive makes the server delete the key).
    And whenever the key already has a TTL running, [save] leaves that TTL
    as it is. *)
Theorem save_fresh (a : Alert) (w : World) :
  let k := GeneratorURL a in
  let w' := (save a w).2 in
  (forall data,
     json_Marshal_Alert a = Ok data ->
     db w !! k = None ->
     allOk (issued (save a) w) = true ->
     (exists added,
        issued (save a) w =
        [(Redis.SADD alert_urls k, Redis.RInt added);
         (Redis.HGET k "silence", Redis.RNil);
         (Redis.HMSET k (<["alert" := data]> (<["silence" := "false"]> ∅)),
          Redis.RSimple "OK");
         (Redis.TTL k, Redis.RInt (-1));
         (Redis.EXPIRE k expiration, Redis.RInt 1)])
     /\ (0 < expiration ->
         payloadOf (db w') k = Some data
         /\ silenceFlag (db w') k = Some "false"
         /\ ttlOf (db w') k = expiration)
     /\ (expiration <= 0 -> db w' !! k = None))
  /\ (0 <= ttlOf (db w) k -> ttlOf (db w') k = ttlOf (db w) k).
Proof.
  intros k w'. subst w'. split.
  - intros data Hm Hk. unfold issued, save. rewrite Hm. fold k.
    destruct (decide (k = alert_urls)) as [Hka|Hka].
    { intros Hok. exfalso. revert Hok. rewrite Hka in *. go. 
      rewrite <- !app_assoc, drop_app_length. done. }
    destruct (db w !! alert_urls) as [[[h|s] e]|] eqn:Eu.
    + intros Hok. exfalso. revert Hok. go.
      rewrite drop_app_length. done.
    + intros _. go.
      destruct (Z.leb_spec expiration 0) as [Hle|Hgt]; go.
      all: rewrite <- !app_assoc, drop_app_length.
      { split; [by eexists|]. split; [intros; lia|]. intros _. cbn [db]. by lookups. }
      split; [by eexists|]. split; [intros _|intros; lia].
      unfold payloadOf, silenceFlag, ttlOf, hashField. cbn [db]. lookups.
      cbn. rewrite Z2N.id by lia. done.
    + intros _. go.
      destruct (Z.leb_spec expiration 0) as [Hle|Hgt]; go.
      all: rewrite <- !app_assoc, drop_app_length.
      { split; [by eexists|]. split; [intros; lia|]. intros _. cbn [db]. by lookups. }
      split; [by eexists|]. split; [intros _|intros; lia].
      unfold payloadOf, silenceFlag, ttlOf, hashField. cbn [db]. lookups.
      cbn. rewrite Z2N.id by lia. done.
  - unfold ttlOf at 1 3. intros Ht.
    destruct (db w !! k) as [[v [t|]]|] eqn:Ek; try lia. clear Ht.
    assert (Hle : (0 <=? Z.of_N t) = true) by (apply Z.leb_le; lia).
    unfold save. fold k. destruct (json_Marshal_Alert a) as [data|err];
      [|unfold ttlOf; cbn; by rewrite Ek].
    destruct (decide (k = alert_urls)) as [Hka|Hka].
    { rewrite Hka in *. destruct v as [h|s]; go; unfold ttlOf; cbn [db]; by lookups. }
    destruct (db w !! alert_urls) as [[[h'|s'] e']|] eqn:Eu; go.
    { unfold ttlOf; cbn [db]; by lookups. }
    all: destruct v as [h|s]; go.
    all: try destruct (h !! "silence") as [f|] eqn:Ef; go.
    all: try destruct (String.eqb f "true"); go.
    all: try rewrite Hle; go.
    all: unfold ttlOf; cbn [db]; by lookups.
Qed.
End Save.

(** ** [Silence.silence] *)
Section SilenceFacts.
Context `{flags : !Flags, externals : !Externals}.

Lemma HSET_reply d k f v :
  isError (Redis.exec (Redis.HSET k f v) d).1 = false ->
  exists created h e,
    (Redis.exec (Redis.HSET k f v) d) =
      (Redis.RInt created, <[k := {| Redis.value := Redis.VHash h; Redis.expire := e |}]> d)
    /\ h !! f = Some v.
Proof.
  cbn. destruct (d !! k) as [[[h|st] e]|]; cbn; [|done|]; intros _.
  - eexists _, _, _. split; [done|]. by rewrite lookup_insert_eq.
  - eexists _, _, _. split; [done|]. by rewrite lookup_singleton_eq.
Qed.

Lemma silence_run s w :
  let hset := Redis.HSET (URL s) "silence" "true" in
  let d1 := (Redis.exec hset (db w)).2 in
  isError (Redis.exec hset (db w)).1 = false ->
  db (silence s w).2 = (Redis.exec (expiryCmd s) d1).2
  /\ issued (silence s) w =
     [(hset, (Redis.exec hset (db w)).1); (expiryCmd s, (Redis.exec (expiryCmd s) d1).1)].
Proof.
  intros hset d1 Hok. subst hset d1.
  destruct (HSET_reply _ _ _ _ Hok) as (created & h & e & Hrun & _).
  unfold issued, silence, expiryCmd. run. rewrite Hrun. cbn [fst snd Redis.Int Redis.Int64].
  destruct (created =? 1), (Duration s <? 0), (Duration s =? 0); run;
    by rewrite <- !app_assoc, drop_app_length.
Qed.

(** C3. A [silence] whose first command, the write of the silence flag, is
    answered without error leaves the flag [true] after that write. Then,
    for a negative duration the key has flag [true] and no TTL, whatever its
    TTL was; for duration 0 it sends [EXPIRE] with the configured default
    duration, and with a positive default the key has flag [true] and that
    TTL (a default that is not positive makes the server delete the key);
    for a positive duration the key has flag [true] and exactly that
    TTL. *)
Theorem silence_flag_and_ttl (s : Silence) (w : World) :
  let hset := Redis.HSET (URL s) "silence" "true" in
  isError (Redis.exec hset (db w)).1 = false ->
  let w' := (silence s w).2 in
  silenceFlag (Redis.exec hset (db w)).2 (URL s) = Some "true"
  /\ (Duration s < 0 ->
      silenceFlag (db w') (URL s) = Some "true" /\ ttlOf (db w') (URL s) = -1)
  /\ (Duration s = 0 ->
      (exists created,
         issued (silence s) w =
         [(hset, Redis.RInt created);
          (Redis.EXPIRE (URL s) silenceDuration, Redis.RInt 1)])
      /\ (0 < silenceDuration ->
          silenceFlag (db w') (URL s) = Some "true"
          /\ ttlOf (db w') (URL s) = silenceDuration)
      /\ (silenceDuration <= 0 -> db w' !! URL s = None))
  /\ (0 < Duration s ->
      silenceFlag (db w') (URL s) = Some "true"
      /\ ttlOf (db w') (URL s) = Duration s).
Proof.
  intros hset Hok w'. subst w' hset.
  destruct (silence_run s w Hok) as [Hdb Hiss]. cbn zeta in Hdb, Hiss.
  rewrite Hdb, Hiss. clear Hdb Hiss.
  destruct (HSET_reply _ _ _ _ Hok) as (created & h & e & Hrun & Hf).
  rewrite !Hrun. cbn [fst snd]. unfold expiryCmd.
  unfold silenceFlag, ttlOf, hashField. split; [by lookups|].
  split; [|split]; intros Hd.
  - apply Z.ltb_lt in Hd as ->. cbn [Redis.exec]. lookups. destruct e; cbn [snd]; by lookups.
  - rewrite Hd. cbn [Z.ltb Z.eqb Z.compare Redis.exec]. lookups.
    destruct (Z.leb_spec silenceDuration 0); cbn [fst snd]; (split; [by eexists|]).
    + split; [intros; lia|]. intros _. by lookups.
    + split; [intros _|intros; lia]. lookups. by rewrite Z2N.id by lia.
  - destruct (Z.ltb_spec (Duration s) 0); [lia|].
    destruct (Z.eqb_spec (Duration s) 0); [lia|]. cbn [Redis.exec]. lookups.
    destruct (Z.leb_spec (Duration s) 0); [lia|]. cbn [snd]. lookups.
    by rewrite Z2N.id by lia.
Qed.
End SilenceFacts.

(** ** [getAlerts] *)
Section GetAlerts.
Context `{flags : !Flags, externals : !Externals}.

Lemma strs_bulk l : Redis.strs (Redis.RBulk <$> l) = Ok l.
Proof. induction l as [|x l IH]; [done|]. cbn. fold (fmap (M:=list) Redis.RBulk l). by rewrite IH. Qed.

Lemma TTL_run d k : Redis.exec (Redis.TTL k) d = (Redis.RInt (ttlOf d k), d).
Proof. cbn. unfold ttlOf. by destruct (d !! k) as [[v [t|]]|]. Qed.

Lemma readFields_length d k l : readFields d k = Ok l -> length l = 2%nat.
Proof.
  unfold readFields. cbn.
  destruct (d !! k) as [[[h|s] e]|]; cbn; [| done |].
  - destruct (h !! "alert"), (h !! "silence"); cbn; by intros [= <-].
  - by intros [= <-].
Qed.

Lemma HMGET_db d k fs : (Redis.exec (Redis.HMGET k fs) d).2 = d.
Proof. cbn. destruct fs as [|f fs]; [done|]. by destruct (d !! k) as [[[h|s] e]|]. Qed.

Lemma body_result url as_ w :
  (getAlerts_body url as_ w).1 = as_ ++ option_list (entryOf (db w) url).
Proof.
  unfold getAlerts_body, entryOf. run. rewrite HMGET_db.
  fold (readFields (db w) url).
  destruct (readFields (db w) url) as [l|e] eqn:El; [|run; by rewrite app_nil_r].
  pose proof (readFields_length _ _ _ El) as Hlen.
  destruct l as [|payload [|flag [|? ?]]]; try done.
  destruct (String.eqb payload ""); [run; by rewrite app_nil_r|].
  destruct (json_Unmarshal_Alert payload) as [a [err|]]; [run; by rewrite app_nil_r|].
  destruct (String.eqb flag "true"); cbn [negb]; [|done].
  run. by rewrite TTL_run.
Qed.

Lemma body_db url as_ w :
  db (getAlerts_body url as_ w).2 =
  match readFields (db w) url with
  | Ok (payload :: _) =>
      if String.eqb payload "" then (Redis.exec (Redis.SREM alert_urls url) (db w)).2
      else db w
  | _ => db w
  end.
Proof.
  unfold getAlerts_body. run. rewrite HMGET_db.
  fold (readFields (db w) url).
  destruct (readFields (db w) url) as [l|e] eqn:El; [|by run].
  pose proof (readFields_length _ _ _ El) as Hlen.
  destruct l as [|payload [|flag [|? ?]]]; try done.
  destruct (String.eqb payload ""); [by run|].
  destruct (json_Unmarshal_Alert payload) as [a [err|]]; [by run|].
  destruct (String.eqb flag "true"); cbn [negb]; [|done].
  run. by rewrite TTL_run.
Qed.

Lemma sameRecords_refl d : sameRecords d d.
Proof. intros k. by left. Qed.

Lemma SREM_other d u k :
  k <> alert_urls -> (Redis.exec (Redis.SREM alert_urls u) d).2 !! k = d !! k.
Proof.
  intros Hk. cbn. destruct (d !! alert_urls) as [[[h|s] e]|]; cbn; [done| |done].
  destruct (decide (u ∈ s)); cbn; [|done].
  destruct (decide (s ∖ {[u]} = ∅));
    [by rewrite lookup_delete_ne|by rewrite lookup_insert_ne].
Qed.

Lemma SREM_self d u :
  (Redis.exec (Redis.SREM alert_urls u) d).2 !! alert_urls = d !! alert_urls
  \/ (notHash (d !! alert_urls)
      /\ notHash ((Redis.exec (Redis.SREM alert_urls u) d).2 !! alert_urls)).
Proof.
  cbn. destruct (d !! alert_urls) as [[[h|s] e]|] eqn:E; cbn; [by left| |by left].
  destruct (decide (u ∈ s)); cbn; [|by left]. right. split; [done|].
  destruct (decide (s ∖ {[u]} = ∅));
    [by rewrite lookup_delete_eq|by rewrite lookup_insert_eq].
Qed.

Lemma sameRecords_SREM d d' u :
  sameRecords d d' -> sameRecords d (Redis.exec (Redis.SREM alert_urls u) d').2.
Proof.
  intros HR k. destruct (decide (k = alert_urls)) as [->|Hk].
  - destruct (SREM_self d' u) as [->|[Hn1 Hn2]]; [apply HR|].
    destruct (HR alert_urls) as [Heq|(_ & Hn & Hn')].
    + right. by rewrite <- Heq.
    + by right.
  - rewrite SREM_other by done. apply HR.
Qed.

Lemma readFields_None d k : d !! k = None -> readFields d k = Ok [""; ""].
Proof. unfold readFields. cbn. by intros ->. Qed.

Lemma readFields_set d k s e :
  d !! k = Some {| Redis.value := Redis.VSet s; Redis.expire := e |} ->
  exists err, readFields d k = Err err.
Proof. unfold readFields. cbn. intros ->. by eexists. Qed.

Lemma entryOf_same d d' k : sameRecords d d' -> entryOf d' k = entryOf d k.
Proof.
  intros HR. destruct (HR k) as [Heq|(-> & Hn & Hn')].
  - unfold entryOf, readFields, ttlOf. cbn. rewrite Heq. by destruct (d !! k) as [[[h|s] e]|].
  - assert (forall d0, notHash (d0 !! alert_urls) -> entryOf d0 alert_urls = None) as Hnone.
    { intros d0 Hd0. unfold entryOf.
      destruct (d0 !! alert_urls) as [[[h|s] e]|] eqn:E; [done| |].
      - by destruct (readFields_set _ _ _ _ E) as [err ->].
      - by rewrite (readFields_None _ _ E). }
    by rewrite !Hnone.
Qed.

Lemma loop_result d0 urls as_ w :
  sameRecords d0 (db w) ->
  (getAlerts_loop urls as_ w).1 = as_ ++ omap (entryOf d0) urls
  /\ sameRecords d0 (db (getAlerts_loop urls as_ w).2).
Proof.
  revert as_ w. induction urls as [|url urls IH]; intros as_ w HR.
  - cbn. by rewrite app_nil_r.
  - cbn [getAlerts_loop]. rewrite bind_run.
    destruct (IH (getAlerts_body url as_ w).1 (getAlerts_body url as_ w).2) as [Hres Hrec].
    { rewrite body_db. destruct (readFields (db w) url) as [[|p ?]|]; try done.
      destruct (String.eqb p ""); [|done]. by apply sameRecords_SREM. }
    split; [|done]. rewrite Hres, body_result, (entryOf_same _ _ _ HR).
    rewrite <- app_assoc. f_equal. cbn. by destruct (entryOf d0 url).
Qed.

(** What [getAlerts] returns: the entry of each known key that has one, in
    the order [SMEMBERS] lists the keys. *)
Lemma getAlerts_result w :
  (getAlerts w).1 = omap (entryOf (db w)) (elements (knownKeys (db w))).
Proof.
  unfold getAlerts. run. unfold knownKeys. cbn [Redis.exec].
  change "alert_urls" with alert_urls.
  destruct (db w !! alert_urls) as [[[h|s] e]|] eqn:E; cbn [fst snd Redis.List Redis.wrongType].
  - run. by rewrite elements_empty.
  - rewrite strs_bulk.
    destruct (loop_result (db w) (elements s) []
      {| db := db w; wire := wire w ++ [(Redis.SMEMBERS alert_urls, Redis.RArray (Redis.RBulk <$> elements s))]; logs := logs w; posts := posts w |}) as [-> _];
      [apply sameRecords_refl|done].
  - cbn. by rewrite elements_empty.
Qed.

Lemma SREM_known d u :
  knownKeys (Redis.exec (Redis.SREM alert_urls u) d).2 = knownKeys d ∖ {[u]}.
Proof.
  unfold knownKeys. cbn. change "alert_urls" with alert_urls.
  destruct (d !! alert_urls) as [[[h|s] e]|] eqn:E; cbn; rewrite ?E;
    [by rewrite empty_difference_L| |by rewrite empty_difference_L].
  destruct (decide (u ∈ s)) as [Hin|Hin]; cbn.
  - destruct (decide (s ∖ {[u]} = ∅)) as [Hemp|Hne].
    + rewrite lookup_delete_eq. by rewrite Hemp.
    + by rewrite lookup_insert_eq.
  - rewrite E. symmetry. apply difference_disjoint_L.
    by apply disjoint_singleton_r.
Qed.

Lemma readFields_ext d d' k : d' !! k = d !! k -> readFields d' k = readFields d k.
Proof.
  intros Heq. unfold readFields. cbn. rewrite Heq.
  by destruct (d !! k) as [[[h|s] e]|].
Qed.

Lemma body_known url as_ w :
  knownKeys (db (getAlerts_body url as_ w).2) ⊆ knownKeys (db w).
Proof.
  rewrite body_db. destruct (readFields (db w) url) as [[|p ?]|]; try done.
  destruct (String.eqb p ""); [|done]. rewrite SREM_known.
  by apply subseteq_difference_l.
Qed.

Lemma body_other url as_ w k :
  k <> alert_urls -> db (getAlerts_body url as_ w).2 !! k = db w !! k.
Proof.
  intros Hk. rewrite body_db. destruct (readFields (db w) url) as [[|p ?]|]; try done.
  destruct (String.eqb p ""); [|done]. by apply SREM_other.
Qed.

Lemma body_logs url as_ w :
  exists l, logs (getAlerts_body url as_ w).2 = logs w ++ l.
Proof.
  unfold getAlerts_body. run. rewrite HMGET_db.
  fold (readFields (db w) url).
  destruct (readFields (db w) url) as [l|e] eqn:El; [|run; by eexists].
  pose proof (readFields_length _ _ _ El) as Hlen.
  destruct l as [|payload [|flag [|? ?]]]; try done.
  destruct (String.eqb payload ""); [run; by eexists|].
  destruct (json_Unmarshal_Alert payload) as [a [err|]]; [run; by eexists|].
  destruct (String.eqb flag "true"); cbn [negb]; run; rewrite ?TTL_run;
    exists []; by rewrite app_nil_r.
Qed.

Lemma loop_known urls as_ w :
  knownKeys (db (getAlerts_loop urls as_ w).2) ⊆ knownKeys (db w).
Proof.
  revert as_ w. induction urls as [|url urls IH]; intros as_ w; [done|].
  cbn [getAlerts_loop]. rewrite bind_run. etrans; [apply IH|apply body_known].
Qed.

Lemma loop_other urls as_ w k :
  k <> alert_urls -> db (getAlerts_loop urls as_ w).2 !! k = db w !! k.
Proof.
  intros Hk. revert as_ w. induction urls as [|url urls IH]; intros as_ w; [done|].
  cbn [getAlerts_loop]. rewrite bind_run, IH. by apply body_other.
Qed.

Lemma loop_logs urls as_ w :
  exists l, logs (getAlerts_loop urls as_ w).2 = logs w ++ l.
Proof.
  revert as_ w. induction urls as [|url urls IH]; intros as_ w.
  - exists []. cbn. by rewrite app_nil_r.
  - cbn [getAlerts_loop]. rewrite bind_run.
    destruct (IH (getAlerts_body url as_ w).1 (getAlerts_body url as_ w).2) as [l ->].
    destruct (body_logs url as_ w) as [l' ->]. exists (l' ++ l). by rewrite app_assoc.
Qed.

Lemma loop_app urls1 urls2 as_ w :
  getAlerts_loop (urls1 ++ urls2) as_ w =
  getAlerts_loop urls2 (getAlerts_loop urls1 as_ w).1 (getAlerts_loop urls1 as_ w).2.
Proof.
  revert as_ w. induction urls1 as [|url urls1 IH]; intros as_ w; [done|].
  cbn [getAlerts_loop app]. by rewrite !bind_run, IH.
Qed.

(** The iteration for a key with an empty payload takes the key out of the
    known-keys set, and it stays out until the loop ends. *)
Lemma loop_prunes urls as_ w url flag :
  url ∈ urls -> url <> alert_urls ->
  readFields (db w) url = Ok [""; flag] ->
  url ∉ knownKeys (db (getAlerts_loop urls as_ w).2).
Proof.
  intros (l1 & l2 & ->)%list_elem_of_split Hne Hread.
  rewrite loop_app. cbn [getAlerts_loop]. rewrite bind_run.
  set (w1 := (getAlerts_loop l1 as_ w).2). set (as1 := (getAlerts_loop l1 as_ w).1).
  intros Hin%loop_known. revert Hin. rewrite body_db.
  rewrite (readFields_ext (db w) (db w1)) by by apply loop_other.
  rewrite Hread. cbn [String.eqb]. rewrite SREM_known.
  rewrite elem_of_difference, elem_of_singleton. tauto.
Qed.

(** The iteration for a key whose payload does not parse logs the failure. *)
Lemma loop_logs_unparsed urls as_ w url payload flag a err :
  url ∈ urls -> url <> alert_urls ->
  readFields (db w) url = Ok [payload; flag] -> payload <> "" ->
  json_Unmarshal_Alert payload = (a, Some err) ->
  LogUnmarshalAlert payload ∈ logs (getAlerts_loop urls as_ w).2.
Proof.
  intros (l1 & l2 & ->)%list_elem_of_split Hne Hread Hp Hj.
  rewrite loop_app. cbn [getAlerts_loop]. rewrite bind_run.
  set (w1 := (getAlerts_loop l1 as_ w).2). set (as1 := (getAlerts_loop l1 as_ w).1).
  destruct (loop_logs l2 (getAlerts_body url as1 w1).1 (getAlerts_body url as1 w1).2)
    as [l ->].
  apply elem_of_app. left. unfold getAlerts_body. run. rewrite HMGET_db.
  fold (readFields (db w1) url).
  rewrite (readFields_ext (db w) (db w1)) by by apply loop_other.
  rewrite Hread. apply String.eqb_neq in Hp as ->. rewrite Hj. run.
  apply elem_of_app. right. by left.
Qed.

Lemma omap_filter_None {A B} (f : A -> option B) (P : A -> Prop)
    `{forall x, Decision (P x)} (l : list A) :
  (forall x, ¬ P x -> f x = None) -> omap f (filter P l) = omap f l.
Proof.
  intros Hf. induction l as [|x l IH]; [done|].
  rewrite filter_cons. destruct (decide (P x)) as [Hx|Hx]; cbn.
  - by rewrite IH.
  - by rewrite IH, (Hf x Hx).
Qed.

(** For the keys it finds in the set, [alert_urls] holds a set, so a key
    whose fields can be read is not [alert_urls] itself. *)
Lemma known_read d url l :
  url ∈ knownKeys d -> readFields d url = Ok l ->
  url <> alert_urls
  /\ exists e, d !! alert_urls = Some {| Redis.value := Redis.VSet (knownKeys d); Redis.expire := e |}.
Proof.
  unfold knownKeys. change "alert_urls" with alert_urls.
  destruct (d !! alert_urls) as [[[h|s] e]|] eqn:E; [set_solver| |set_solver].
  intros _ Hread. split; [|by eexists]. intros ->.
  destruct (readFields_set _ _ _ _ E) as [err Herr]. congruence.
Qed.

Lemma getAlerts_run w s e :
  db w !! alert_urls = Some {| Redis.value := Redis.VSet s; Redis.expire := e |} ->
  getAlerts w =
  getAlerts_loop (elements s) []
    {| db := db w;
       wire := wire w ++ [(Redis.SMEMBERS alert_urls, Redis.RArray (Redis.RBulk <$> elements s))];
       logs := logs w; posts := posts w |}.
Proof.
  intros E. unfold getAlerts. run. cbn [Redis.exec]. rewrite E.
  cbn [fst snd Redis.List]. by rewrite strs_bulk.
Qed.

Lemma entryOf_empty d url flag : readFields d url = Ok [""; flag] -> entryOf d url = None.
Proof. unfold entryOf. by intros ->. Qed.

Lemma entryOf_unparsed d url payload flag a err :
  readFields d url = Ok [payload; flag] ->
  json_Unmarshal_Alert payload = (a, Some err) -> entryOf d url = None.
Proof. unfold entryOf. intros -> ->. by destruct (String.eqb payload ""). Qed.

Lemma getAlerts_without w url :
  entryOf (db w) url = None ->
  (getAlerts w).1 =
  (getAlerts_loop (filter (fun k => k <> url) (elements (knownKeys (db w)))) [] w).1.
Proof.
  intros Hnone. rewrite getAlerts_result.
  destruct (loop_result (db w)
              (filter (fun k => k <> url) (elements (knownKeys (db w)))) [] w
              (sameRecords_refl _)) as [-> _].
  cbn [app]. symmetry. apply omap_filter_None.
  intros k Hk. destruct (decide (k = url)) as [->|]; [done|]. by destruct Hk.
Qed.

(** C5. A known key whose stored payload reads as empty is removed from
    [alert_urls] by the call and has no entry in the result: the result is
    what the scan of the other known keys alone yields. A known key whose
    payload does not parse as an Alert is logged and skipped in the same
    way, the scan going on with the other keys. *)
Theorem getAlerts_prunes_and_skips (w : World) (url : string) :
  url ∈ knownKeys (db w) ->
  let others := filter (fun k => k <> url) (elements (knownKeys (db w))) in
  (forall flag,
     readFields (db w) url = Ok [""; flag] ->
     (url ∉ knownKeys (db (getAlerts w).2))
     /\ (getAlerts w).1 = (getAlerts_loop others [] w).1)
  /\ (forall payload flag a err,
       readFields (db w) url = Ok [payload; flag] ->
       payload <> "" ->
       json_Unmarshal_Alert payload = (a, Some err) ->
       LogUnmarshalAlert payload ∈ logs (getAlerts w).2
       /\ (getAlerts w).1 = (getAlerts_loop others [] w).1).
Proof.
  intros Hin others. split.
  - intros flag Hread. split; [|by eapply getAlerts_without, entryOf_empty].
    destruct (known_read _ _ _ Hin Hread) as (Hne & e & E).
    rewrite (getAlerts_run _ _ _ E).
    eapply loop_prunes; [by apply elem_of_elements|done|done].
  - intros payload flag a err Hread Hp Hj.
    split; [|by eapply getAlerts_without, entryOf_unparsed].
    destruct (known_read _ _ _ Hin Hread) as (Hne & e & E).
    rewrite (getAlerts_run _ _ _ E).
    eapply loop_logs_unparsed; [by apply elem_of_elements|done..].
Qed.

(** C6. A known key with a non-empty payload that parses has its entry in
    the result: with TTL 0 when the stored silence flag is not [true], with
    the TTL the store reports for the key when it is; that TTL is negative
    exactly when the key has no expiry. *)
Theorem getAlerts_entry (w : World) (url payload flag : string) (a : Alert) :
  url ∈ knownKeys (db w) ->
  readFields (db w) url = Ok [payload; flag] ->
  payload <> "" ->
  json_Unmarshal_Alert payload = (a, None) ->
  (flag <> "true" -> {| StatusAlert := a; TTL := 0 |} ∈ (getAlerts w).1)
  /\ (flag = "true" ->
      {| StatusAlert := a; TTL := ttlOf (db w) url |} ∈ (getAlerts w).1
      /\ (ttlOf (db w) url < 0 <->
          exists v, db w !! url = Some {| Redis.value := v; Redis.expire := None |})).
Proof.
  intros Hin Hread Hp Hj.
  assert (Hentry : entryOf (db w) url =
            Some {| StatusAlert := a;
                    TTL := if String.eqb flag "true" then ttlOf (db w) url else 0 |}).
  { unfold entryOf. rewrite Hread. apply String.eqb_neq in Hp as ->. by rewrite Hj. }
  assert (Hres : forall st, entryOf (db w) url = Some st -> st ∈ (getAlerts w).1).
  { intros st Hst. rewrite getAlerts_result. apply list_elem_of_omap.
    exists url. split; [by apply elem_of_elements|done]. }
  split.
  - intros Hf. apply Hres. rewrite Hentry. by apply String.eqb_neq in Hf as ->.
  - intros ->. split; [by apply Hres|].
    unfold ttlOf. revert Hread. unfold readFields. cbn.
    destruct (db w !! url) as [[v [t|]]|]; [| |by destruct payload].
    + intros _. split; [lia|]. by intros (v' & [=]).
    + intros _. split; [by eexists|lia].
Qed.
End GetAlerts.

(** ** [alert]: the scan *)
Section Scan.
Context `{flags : !Flags, externals : !Externals}.

Lemma body_posts url as_ w : posts (getAlerts_body url as_ w).2 = posts w.
Proof.
  unfold getAlerts_body. run. rewrite HMGET_db.
  destruct (Redis.List _) as [[|payload [|flag [|? ?]]]|e]; run; try done.
  destruct (String.eqb payload ""); [by run|].
  destruct (json_Unmarshal_Alert payload) as [a [err|]]; [by run|].
  destruct (String.eqb flag "true"); cbn [negb]; [|done].
  run. by rewrite TTL_run.
Qed.

Lemma loop_posts urls as_ w : posts (getAlerts_loop urls as_ w).2 = posts w.
Proof.
  revert as_ w. induction urls as [|url urls IH]; intros as_ w; [done|].
  cbn [getAlerts_loop]. by rewrite bind_run, IH, body_posts.
Qed.

Lemma getAlerts_posts w : posts (getAlerts w).2 = posts w.
Proof.
  unfold getAlerts. run. destruct (Redis.List _); run; [|done].
  by rewrite loop_posts.
Qed.

Lemma send_posts p w : posts (send p w).2 = posts w ++ requests [p].
Proof.
  unfold send, requests. cbn [omap list_omap].
  destruct (json_Marshal_Payload p) as [data|e]; run.
  - unfold post. cbn. by destruct (http_Post token data).
  - by rewrite app_nil_r.
Qed.

Lemma requests_app ps qs : requests (ps ++ qs) = requests ps ++ requests qs.
Proof. unfold requests. apply omap_app. Qed.

Lemma forEach_send_posts ps w :
  posts (forEach ps send w).2 = posts w ++ requests ps.
Proof.
  revert w. induction ps as [|p ps IH]; intros w.
  - cbn. by rewrite app_nil_r.
  - cbn [forEach]. rewrite bind_run, IH, send_posts, <- app_assoc.
    by rewrite <- requests_app.
Qed.

Lemma forEach_scan_posts sts w :
  posts (forEach sts (fun alert =>
           if TTL alert =? 0 then forEach (toPayloads (StatusAlert alert)) send
           else ret tt) w).2 =
  posts w ++
  requests (flat_map (fun st => toPayloads (StatusAlert st))
                     (filter (fun st => TTL st = 0) sts)).
Proof.
  revert w. induction sts as [|st sts IH]; intros w.
  - cbn. by rewrite app_nil_r.
  - cbn [forEach]. rewrite bind_run, IH, filter_cons.
    destruct (Z.eqb_spec (TTL st) 0) as [Hz|Hnz].
    + rewrite decide_True by done. cbn [flat_map].
      by rewrite forEach_send_posts, requests_app, app_assoc.
    + by rewrite decide_False by done.
Qed.

Lemma send_db p w : db (send p w).2 = db w.
Proof.
  unfold send. destruct (json_Marshal_Payload p) as [data|e]; run; [|done].
  unfold post. cbn. by destruct (http_Post token data).
Qed.

Lemma forEach_send_db ps w : db (forEach ps send w).2 = db w.
Proof.
  revert w. induction ps as [|p ps IH]; intros w; [done|].
  cbn [forEach]. by rewrite bind_run, IH, send_db.
Qed.

(** The scan changes the store only through [getAlerts]. *)
Lemma alert_db w : db (alert w).2 = db (getAlerts w).2.
Proof.
  unfold alert. rewrite bind_run. generalize (getAlerts w).2.
  induction (getAlerts w).1 as [|st sts IH]; intros w0; [done|].
  cbn [forEach]. rewrite bind_run, IH.
  destruct (TTL st =? 0); [apply forEach_send_db|done].
Qed.

(** C4. A scan posts exactly the messages of the entries of [getAlerts]
    whose TTL is 0, in order; an entry with another TTL contributes no
    message, so a scan in which every entry is silenced posts nothing. *)
Theorem alert_sends_unsilenced (w : World) :
  posts (alert w).2 =
  posts w ++
  requests (flat_map (fun st => toPayloads (StatusAlert st))
                     (filter (fun st => TTL st = 0) (getAlerts w).1))
  /\ ((forall st, st ∈ (getAlerts w).1 -> TTL st <> 0) -> posts (alert w).2 = posts w).
Proof.
  assert (Hposts : posts (alert w).2 =
    posts w ++
    requests (flat_map (fun st => toPayloads (StatusAlert st))
                       (filter (fun st => TTL st = 0) (getAlerts w).1))).
  { unfold alert. rewrite bind_run.
    by rewrite forEach_scan_posts, getAlerts_posts. }
  split; [done|]. intros Hall. rewrite Hposts. clear Hposts.
  assert (filter (fun st => TTL st = 0) (getAlerts w).1 = []) as ->;
    [|by rewrite app_nil_r].
  revert Hall. generalize (getAlerts w).1. intros sts.
  induction sts as [|st sts IH]; intros Hall; [done|].
  rewrite filter_cons, decide_False by (apply Hall; left).
  apply IH. intros st' Hst'. apply Hall. by right.
Qed.
End Scan.

(** ** The known-keys set *)
Section KnownKeys.
Context `{flags : !Flags, externals : !Externals}.

Lemma knownKeys_ext d d' : d' !! alert_urls = d !! alert_urls -> knownKeys d' = knownKeys d.
Proof. unfold knownKeys. change "alert_urls" with alert_urls. by intros ->. Qed.

Lemma SADD_known d k :
  isError (Redis.exec (Redis.SADD alert_urls k) d).1 = false ->
  knownKeys (Redis.exec (Redis.SADD alert_urls k) d).2 = {[k]} ∪ knownKeys d.
Proof.
  unfold knownKeys. change "alert_urls" with alert_urls. cbn.
  destruct (d !! alert_urls) as [[[h|s] e]|]; cbn; [done| |]; intros _;
    rewrite lookup_insert_eq; [done|]. by rewrite union_empty_r_L.
Qed.

(** After its first command, [save] only works on the alert's own key. *)
Lemma save_known a w data :
  json_Marshal_Alert a = Ok data ->
  isError (Redis.exec (Redis.SADD alert_urls (GeneratorURL a)) (db w)).1 = false ->
  knownKeys (db (save a w).2) = {[GeneratorURL a]} ∪ knownKeys (db w).
Proof.
  intros Hm Hok. rewrite <- (SADD_known _ _ Hok). revert Hok.
  unfold save. rewrite Hm. set (k := GeneratorURL a).
  destruct (decide (k = alert_urls)) as [Hk|Hk].
  - rewrite Hk. destruct (db w !! alert_urls) as [[[h|s] e]|] eqn:E; go; done.
  - intros Hok. apply knownKeys_ext. run.
    assert (Hk' : forall c, cmdKey c = k -> alert_urls <> cmdKey c) by (by intros c ->).
    destruct (Redis.Int _); run; [|done].
    destruct (match Redis.Str _ with Ok r => _ | Err _ => false end); run;
      [by rewrite !exec_frame by by apply Hk'|].
    destruct (Redis.Str _) as [status|]; run; [|by rewrite !exec_frame by by apply Hk'].
    destruct (String.eqb status "OK"); run.
    all: destruct (match Redis.Int _ with Ok ttl => _ | Err _ => None end); run.
    all: try destruct (Redis.Int _) as [code|]; run.
    all: try destruct (code =? 1); run.
    all: by rewrite !exec_frame by by apply Hk'.
Qed.
Lemma expiryCmd_key s : cmdKey (expiryCmd s) = URL s.
Proof. unfold expiryCmd. by destruct (Duration s <? 0), (Duration s =? 0). Qed.

Lemma silence_failed s w :
  isError (Redis.exec (Redis.HSET (URL s) "silence" "true") (db w)).1 = true ->
  db (silence s w).2 = db w.
Proof.
  unfold silence. run. cbn [Redis.exec].
  by destruct (db w !! URL s) as [[[h|st] e]|].
Qed.

Lemma expiry_notSet s d h e :
  d !! URL s = Some {| Redis.value := Redis.VHash h; Redis.expire := e |} ->
  knownKeys (Redis.exec (expiryCmd s) d).2 = ∅ \/ URL s <> alert_urls.
Proof.
  intros E. destruct (decide (URL s = alert_urls)) as [Heq|]; [left|by right].
  unfold knownKeys, expiryCmd. change "alert_urls" with alert_urls. rewrite <- Heq.
  destruct (Duration s <? 0), (Duration s =? 0); cbn [Redis.exec]; rewrite E.
  1,2: destruct e; cbn [snd]; rewrite ?lookup_insert_eq, ?E; done.
  all: match goal with |- context [?a <=? ?b] => destruct (a <=? b) end;
    cbn [snd]; rewrite ?lookup_insert_eq, ?lookup_delete_eq; done.
Qed.

Lemma silence_known s w : knownKeys (db (silence s w).2) = knownKeys (db w).
Proof.
  destruct (isError (Redis.exec (Redis.HSET (URL s) "silence" "true") (db w)).1) eqn:Hok.
  { by rewrite silence_failed. }
  destruct (silence_run s w Hok) as [-> _].
  destruct (HSET_reply _ _ _ _ Hok) as (created & h & e & Hrun & _). rewrite Hrun.
  cbn [snd]. destruct (decide (URL s = alert_urls)) as [Heq|Hne].
  - destruct (expiry_notSet s (<[URL s:={| Redis.value := Redis.VHash h; Redis.expire := e |}]> (db w)) h e) as [->|]; [by rewrite lookup_insert_eq| |done].
    revert Hok. unfold knownKeys. change "alert_urls" with alert_urls. rewrite Heq.
    cbn. by destruct (db w !! alert_urls) as [[[h'|st] e']|].
  - apply knownKeys_ext. rewrite exec_frame by by rewrite expiryCmd_key.
    by rewrite lookup_insert_ne.
Qed.


Lemma entryOf_ext d d' k : d' !! k = d !! k -> entryOf d' k = entryOf d k.
Proof.
  intros Heq. unfold entryOf, ttlOf. by rewrite (readFields_ext d d'), Heq.
Qed.

Lemma omap_ext_in {A B} (f g : A -> option B) (l : list A) :
  (forall x, x ∈ l -> f x = g x) -> omap f l = omap g l.
Proof.
  induction l as [|x l IH]; intros Hfg; [done|]. cbn.
  rewrite (Hfg x) by left. rewrite IH; [done|]. intros y Hy. apply Hfg. by right.
Qed.

Lemma silence_other s w k : k <> URL s -> db (silence s w).2 !! k = db w !! k.
Proof.
  intros Hk.
  destruct (isError (Redis.exec (Redis.HSET (URL s) "silence" "true") (db w)).1) eqn:Hok.
  { by rewrite silence_failed. }
  destruct (silence_run s w Hok) as [-> _].
  rewrite exec_frame by by rewrite expiryCmd_key. by apply exec_frame.
Qed.

Lemma getAlerts_known w : knownKeys (db (getAlerts w).2) ⊆ knownKeys (db w).
Proof.
  destruct (db w !! alert_urls) as [[[h|s] e]|] eqn:E.
  - unfold getAlerts. run. cbn [Redis.exec]. rewrite E. by run.
  - rewrite (getAlerts_run _ _ _ E). etrans; [apply loop_known|done].
  - unfold getAlerts. run. cbn [Redis.exec]. rewrite E. by run.
Qed.

(** C10. [silence] never adds a key to [alert_urls], and neither does the
    scan: the set is the same after [silence] and can only shrink in
    [getAlerts] and [alert], while a [save] whose [SADD] is answered adds the
    alert's key. So a silence request for a key that is not in the store and
    not in the set does change the store, its first command creating a hash
    that holds only the silence flag [true], on which the expiry command
    then runs, but the key is still not in the set, and [getAlerts] returns
    what it returned before. *)
Theorem silence_never_registers (s : Silence) (w : World) :
  let hset := Redis.HSET (URL s) "silence" "true" in
  let w' := (silence s w).2 in
  knownKeys (db w') = knownKeys (db w)
  /\ knownKeys (db (getAlerts w).2) ⊆ knownKeys (db w)
  /\ knownKeys (db (alert w).2) ⊆ knownKeys (db w)
  /\ (forall a data,
        json_Marshal_Alert a = Ok data ->
        isError (Redis.exec (Redis.SADD alert_urls (GeneratorURL a)) (db w)).1 = false ->
        knownKeys (db (save a w).2) = {[GeneratorURL a]} ∪ knownKeys (db w))
  /\ (db w !! URL s = None ->
      URL s ∉ knownKeys (db w) ->
      Redis.exec hset (db w) =
        (Redis.RInt 1,
         <[URL s := {| Redis.value := Redis.VHash {["silence" := "true"]};
                       Redis.expire := None |}]> (db w))
      /\ db w' = (Redis.exec (expiryCmd s) (Redis.exec hset (db w)).2).2
      /\ (URL s ∉ knownKeys (db w'))
      /\ (getAlerts w').1 = (getAlerts w).1).
Proof.
  intros hset w'. subst hset w'. split; [apply silence_known|].
  split; [apply getAlerts_known|].
  split; [rewrite alert_db; apply getAlerts_known|].
  split; [intros a data; apply save_known|]. intros Habs Hnk.
  assert (Hrun : Redis.exec (Redis.HSET (URL s) "silence" "true") (db w) =
            (Redis.RInt 1,
             <[URL s := {| Redis.value := Redis.VHash {["silence" := "true"]};
                           Redis.expire := None |}]> (db w))).
  { cbn. by rewrite Habs. }
  split; [done|]. split.
  { apply silence_run. by rewrite Hrun. }
  split; [by rewrite silence_known|].
  rewrite !getAlerts_result, silence_known. apply omap_ext_in.
  intros k Hk%elem_of_elements. apply entryOf_ext, silence_other. by intros ->.
Qed.
End KnownKeys.

(** ** [silenceHandler] *)
Section Handlers.
Context `{flags : !Flags, externals : !Externals}.

Lemma silence_frame s w w1 :
  db w1 = db w -> wire w1 = wire w ->
  db (silence s w1).2 = db (silence s w).2
  /\ wire (silence s w1).2 = wire (silence s w).2.
Proof.
  intros Hdb Hwire. unfold silence. run. rewrite Hdb, Hwire.
  destruct (Redis.Int _) as [code|e]; [|by run].
  destruct (code =? 1), (Duration s <? 0), (Duration s =? 0); by run.
Qed.

Lemma silence_logs s w : exists l, logs (silence s w).2 = logs w ++ l.
Proof.
  unfold silence. run.
  destruct (Redis.Int _) as [code|e]; [|run; by eexists].
  destruct (code =? 1), (Duration s <? 0), (Duration s =? 0); run;
    rewrite <- ?app_assoc; by eexists.
Qed.

(** C7. A silence request whose body does not unmarshal is logged, and the
    handler answers [ok]; but it is not skipped: the handler goes on to run
    [silence] on the value the decoder left, with the same commands and the
    same effect on the store as a direct call. *)
Theorem silenceHandler_unparsed (r : Request) (w : World) (s : Silence) (err : string) :
  json_Unmarshal_Silence (Body r) = (s, Some err) ->
  (silenceHandler r w).1 = "ok"
  /\ LogUnmarshalSilence (Body r) ∈ logs (silenceHandler r w).2
  /\ db (silenceHandler r w).2 = db (silence s w).2
  /\ issued (silenceHandler r) w = issued (silence s) w.
Proof.
  intros Hj. unfold issued, silenceHandler. rewrite Hj. rewrite !bind_run.
  set (w0 := ((match ReadErr r with
               | Some e => logf (LogError e)
               | None => ret tt
               end) w).2).
  assert (db w0 = db w /\ wire w0 = wire w) as [Hdb Hwire].
  { subst w0. by destruct (ReadErr r). }
  set (w1 := (logf (LogUnmarshalSilence (Body r)) w0).2).
  destruct (silence_frame s w w1) as [Hd Hw]; [done..|].
  cbn [ret fst snd]. rewrite Hd, Hw. split; [done|]. split; [|done].
  destruct (silence_logs s w1) as [l ->]. apply elem_of_app. left.
  subst w1. cbn. apply elem_of_app. right. by left.
Qed.
End Handlers.

(** ** The theorems at concrete inputs *)

Lemma save_silenced_witness :
  let w0 := (silence {| URL := "u"; Duration := 0 |} emptyWorld).2 in
  (silenceFlag (db silencedWorld) "u" = Some "true"
   /\ "u" ∈ knownKeys (db (save alertU silencedWorld).2)
   /\ db (save alertU silencedWorld).2 = db silencedWorld
   /\ ttlOf (db (save alertU silencedWorld).2) "u" = 3600)
  /\ (silenceFlag (db w0) "u" = Some "true"
      /\ json_Marshal_Alert alertU = Ok "alert|u|ops, releases"
      /\ ("u" ∉ knownKeys (db w0))
      /\ "u" ∈ knownKeys (db (save alertU w0).2)
      /\ payloadOf (db (save alertU w0).2) "u" = None
      /\ ttlOf (db (save alertU w0).2) "u" = 3600
      /\ logs (save alertU w0).2 = logs w0 ++ [LogAlreadySilenced "u"]).
Proof.
  intros w0.
  assert (Hm : json_Marshal_Alert alertU = Ok "alert|u|ops, releases") by reflexivity.
  assert (H : silenceFlag (db silencedWorld) (GeneratorURL alertU) = Some "true")
    by (vm_compute; reflexivity).
  assert (H0 : silenceFlag (db w0) (GeneratorURL alertU) = Some "true")
    by (vm_compute; reflexivity).
  assert (Hok : isError (Redis.exec (Redis.SADD alert_urls (GeneratorURL alertU))
                           (db silencedWorld)).1 = false) by (vm_compute; reflexivity).
  assert (Hok0 : isError (Redis.exec (Redis.SADD alert_urls (GeneratorURL alertU))
                            (db w0)).1 = false) by (vm_compute; reflexivity).
  assert (Hout : "u" ∉ knownKeys (db w0)) by (vm_compute; discriminate).
  destruct (save_silenced alertU silencedWorld H) as (_ & _ & Ht & Hadd & _).
  destruct (Hadd _ Hm) as (Hdb & _ & Hin).
  destruct (Hin Hok) as (Hin1 & _ & _ & _).
  destruct (save_silenced alertU w0 H0) as (Hp0 & _ & Ht0 & Hadd0 & _).
  destruct (Hadd0 _ Hm) as (_ & _ & Hin0).
  destruct (Hin0 Hok0) as (Hin2 & _ & _ & Hlog).
  split.
  - split; [exact H|]. split; [exact Hin1|].
    split; [etrans; [exact Hdb|]; vm_compute; reflexivity|].
    etrans; [exact Ht|]. vm_compute. reflexivity.
  - split; [exact H0|]. split; [exact Hm|]. split; [exact Hout|]. split; [exact Hin2|].
    split; [etrans; [exact Hp0|]; vm_compute; reflexivity|].
    split; [etrans; [exact Ht0|]; vm_compute; reflexivity|].
    exact Hlog.
Defined.

Lemma save_fresh_witness :
  (json_Marshal_Alert alertU = Ok "alert|u|ops, releases"
   /\ db emptyWorld !! "u" = None
   /\ allOk (issued (save alertU) emptyWorld) = true
   /\ ttlOf (db savedWorld) "u" = 180)
  /\ (0 <= ttlOf (db savedWorld) "u"
      /\ ttlOf (db (save alertU savedWorld).2) "u" = 180).
Proof.
  destruct (save_fresh alertU emptyWorld) as [Hnew _].
  destruct (save_fresh alertU savedWorld) as [_ Hrun].
  assert (Hm : json_Marshal_Alert alertU = Ok "alert|u|ops, releases") by reflexivity.
  assert (Hk : db emptyWorld !! GeneratorURL alertU = None) by reflexivity.
  assert (Hok : allOk (issued (save alertU) emptyWorld) = true)
    by (vm_compute; reflexivity).
  assert (Ht : 0 <= ttlOf (db savedWorld) (GeneratorURL alertU))
    by (vm_compute; discriminate).
  split.
  - destruct (Hnew _ Hm Hk Hok) as [_ Hstate].
    destruct Hstate as [Hstate _]. destruct Hstate as (_ & _ & Httl); [reflexivity|].
    exact (conj Hm (conj Hk (conj Hok Httl))).
  - split; [exact Ht|]. etrans; [exact (Hrun Ht)|]. vm_compute. reflexivity.
Defined.

Lemma silence_flag_and_ttl_witness :
  isError (Redis.exec (Redis.HSET "u" "silence" "true") (db savedWorld)).1 = false
  /\ ttlOf (db (silence {| URL := "u"; Duration := -1 |} savedWorld).2) "u" = -1
  /\ ttlOf (db (silence {| URL := "u"; Duration := 0 |} savedWorld).2) "u" = 3600
  /\ ttlOf (db (silence {| URL := "u"; Duration := 5 |} savedWorld).2) "u" = 5.
Proof.
  assert (Hok : isError (Redis.exec (Redis.HSET "u" "silence" "true")
                           (db savedWorld)).1 = false) by (vm_compute; reflexivity).
  split; [exact Hok|].
  destruct (silence_flag_and_ttl {| URL := "u"; Duration := -1 |} savedWorld Hok)
    as (_ & Hneg & _ & _).
  destruct (silence_flag_and_ttl {| URL := "u"; Duration := 0 |} savedWorld Hok)
    as (_ & _ & Hzero & _).
  destruct (silence_flag_and_ttl {| URL := "u"; Duration := 5 |} savedWorld Hok)
    as (_ & _ & _ & Hpos).
  split; [apply Hneg; reflexivity|].
  split; [|apply Hpos; reflexivity].
  destruct Hzero as (_ & Hstate & _); [reflexivity|]. apply Hstate. reflexivity.
Defined.

Lemma alert_sends_unsilenced_witness :
  (forall st, st ∈ (getAlerts silencedWorld).1 -> TTL st <> 0)
  /\ posts (alert silencedWorld).2 = []
  /\ posts (alert savedWorld).2 =
     [("https://hooks.example/T", "ops"); ("https://hooks.example/T", "releases")].
Proof.
  assert (Hall : forall st, st ∈ (getAlerts silencedWorld).1 -> TTL st <> 0).
  { intros st Hst. vm_compute in Hst. apply list_elem_of_singleton in Hst as ->.
    discriminate. }
  split; [exact Hall|]. split.
  - destruct (alert_sends_unsilenced silencedWorld) as [_ Hnone].
    etrans; [exact (Hnone Hall)|]. vm_compute. reflexivity.
  - destruct (alert_sends_unsilenced savedWorld) as [Hsent _].
    etrans; [exact Hsent|]. vm_compute. reflexivity.
Defined.

Lemma getAlerts_prunes_and_skips_witness :
  ("gone" ∈ knownKeys (db staleWorld)
   /\ readFields (db staleWorld) "gone" = Ok [""; ""]
   /\ ("gone" ∉ knownKeys (db (getAlerts staleWorld).2)))
  /\ ("bad" ∈ knownKeys (db staleWorld)
      /\ readFields (db staleWorld) "bad" = Ok ["garbage"; ""]
      /\ json_Unmarshal_Alert "garbage" = (zeroAlert, Some "invalid character")
      /\ LogUnmarshalAlert "garbage" ∈ logs (getAlerts staleWorld).2).
Proof.
  assert (Hgone : "gone" ∈ knownKeys (db staleWorld)) by (vm_compute; reflexivity).
  assert (Hbad : "bad" ∈ knownKeys (db staleWorld)) by (vm_compute; reflexivity).
  assert (Hrg : readFields (db staleWorld) "gone" = Ok [""; ""]) by reflexivity.
  assert (Hrb : readFields (db staleWorld) "bad" = Ok ["garbage"; ""])
    by (vm_compute; reflexivity).
  assert (Hj : json_Unmarshal_Alert "garbage" = (zeroAlert, Some "invalid character"))
    by reflexivity.
  split.
  - destruct (getAlerts_prunes_and_skips staleWorld "gone" Hgone) as [Hempty _].
    destruct (Hempty "" Hrg) as [Hout _]. exact (conj Hgone (conj Hrg Hout)).
  - destruct (getAlerts_prunes_and_skips staleWorld "bad" Hbad) as [_ Hparse].
    assert (Hne : "garbage" <> "") by discriminate.
    destruct (Hparse "garbage" "" zeroAlert "invalid character" Hrb Hne Hj) as [Hlog _].
    exact (conj Hbad (conj Hrb (conj Hj Hlog))).
Defined.

Lemma getAlerts_entry_witness :
  let a := alertU in
  ("u" ∈ knownKeys (db savedWorld)
   /\ readFields (db savedWorld) "u" = Ok ["alert|u|ops, releases"; "false"]
   /\ json_Unmarshal_Alert "alert|u|ops, releases" = (a, None)
   /\ {| StatusAlert := a; TTL := 0 |} ∈ (getAlerts savedWorld).1)
  /\ ("u" ∈ knownKeys (db silencedWorld)
      /\ readFields (db silencedWorld) "u" = Ok ["alert|u|ops, releases"; "true"]
      /\ {| StatusAlert := a; TTL := 3600 |} ∈ (getAlerts silencedWorld).1).
Proof.
  intros a.
  assert (Hk1 : "u" ∈ knownKeys (db savedWorld)) by (vm_compute; reflexivity).
  assert (Hk2 : "u" ∈ knownKeys (db silencedWorld)) by (vm_compute; reflexivity).
  assert (Hr1 : readFields (db savedWorld) "u" = Ok ["alert|u|ops, releases"; "false"])
    by (vm_compute; reflexivity).
  assert (Hr2 : readFields (db silencedWorld) "u" = Ok ["alert|u|ops, releases"; "true"])
    by (vm_compute; reflexivity).
  assert (Hj : json_Unmarshal_Alert "alert|u|ops, releases" = (a, None)) by (vm_compute; reflexivity).
  assert (Hne : "alert|u|ops, releases" <> "") by discriminate.
  split.
  - destruct (getAlerts_entry savedWorld "u" "alert|u|ops, releases" "false" a Hk1 Hr1 Hne Hj)
      as [Hfalse _].
    assert (Hf : "false" <> "true") by discriminate.
    exact (conj Hk1 (conj Hr1 (conj Hj (Hfalse Hf)))).
  - destruct (getAlerts_entry silencedWorld "u" "alert|u|ops, releases" "true" a Hk2 Hr2 Hne Hj)
      as [_ Htrue].
    destruct (Htrue eq_refl) as [Hin _].
    exact (conj Hk2 (conj Hr2 Hin)).
Defined.

Lemma silenceHandler_unparsed_witness :
  let r := {| Body := ""; ReadErr := None |} in
  json_Unmarshal_Silence (Body r) = (zeroSilence, Some "unexpected end of JSON input")
  /\ (silenceHandler r emptyWorld).1 = "ok"
  /\ issued (silenceHandler r) emptyWorld =
     [(Redis.HSET "" "silence" "true", Redis.RInt 1);
      (Redis.EXPIRE "" 3600, Redis.RInt 1)]
  /\ silenceFlag (db (silenceHandler r emptyWorld).2) "" = Some "true"
  /\ ttlOf (db (silenceHandler r emptyWorld).2) "" = 3600.
Proof.
  intros r.
  assert (Hj : json_Unmarshal_Silence (Body r)
               = (zeroSilence, Some "unexpected end of JSON input")) by reflexivity.
  destruct (silenceHandler_unparsed r emptyWorld _ _ Hj) as (Hok & _ & Hdb & Hiss).
  split; [exact Hj|]. split; [exact Hok|].
  split; [etrans; [exact Hiss|]; vm_compute; reflexivity|].
  rewrite Hdb. vm_compute. split; reflexivity.
Defined.

Lemma toPayloads_recipients_witness :
  (Labels zeroAlert !! "users" = None /\ Labels zeroAlert !! "channels" = None
   /\ toPayloads zeroAlert = [])
  /\ Channel <$> toPayloads (alertAt "u" {["users" := " ann , bob ";
                                          "channels" := "ops, releases"]})
     = ["@ann"; "@bob"; "ops"; "releases"].
Proof.
  destruct (toPayloads_recipients zeroAlert) as [Hnone _].
  destruct (toPayloads_recipients
              (alertAt "u" {["users" := " ann , bob "; "channels" := "ops, releases"]}))
    as [_ Hrec].
  split.
  - exact (conj eq_refl (conj eq_refl (Hnone eq_refl eq_refl))).
  - etrans; [exact Hrec|]. vm_compute. reflexivity.
Defined.

Lemma toPayloads_empty_label_witness :
  Channel <$> toPayloads (alertAt "u" {["users" := ""]}) = ["@"]
  /\ Channel <$> toPayloads (alertAt "u" {["channels" := ""]}) = [""].
Proof.
  destruct (toPayloads_empty_label (alertAt "u" {["users" := ""]})) as [Hu _].
  destruct (toPayloads_empty_label (alertAt "u" {["channels" := ""]})) as [_ Hc].
  split.
  - etrans; [apply Hu; vm_compute; reflexivity|]. vm_compute. reflexivity.
  - etrans; [apply Hc; vm_compute; reflexivity|]. vm_compute. reflexivity.
Defined.

Lemma silence_never_registers_witness :
  let s := {| URL := "never"; Duration := 0 |} in
  (json_Marshal_Alert alertU = Ok "alert|u|ops, releases"
   /\ isError (Redis.exec (Redis.SADD alert_urls "u") (db emptyWorld)).1 = false
   /\ knownKeys (db savedWorld) = {["u"]} ∪ knownKeys (db emptyWorld))
  /\ db savedWorld !! URL s = None
  /\ (URL s ∉ knownKeys (db savedWorld))
  /\ silenceFlag (db (silence s savedWorld).2) "never" = Some "true"
  /\ ("never" ∉ knownKeys (db (silence s savedWorld).2))
  /\ (getAlerts (silence s savedWorld).2).1 = (getAlerts savedWorld).1.
Proof.
  intros s.
  assert (Hm : json_Marshal_Alert alertU = Ok "alert|u|ops, releases") by reflexivity.
  assert (Hadd : isError (Redis.exec (Redis.SADD alert_urls (GeneratorURL alertU))
                            (db emptyWorld)).1 = false) by reflexivity.
  assert (Habs : db savedWorld !! URL s = None) by (vm_compute; reflexivity).
  assert (Hnk : URL s ∉ knownKeys (db savedWorld)).
  { vm_compute. discriminate. }
  destruct (silence_never_registers s emptyWorld) as (_ & _ & _ & Hsave & _).
  destruct (silence_never_registers s savedWorld) as (_ & _ & _ & _ & Hnew).
  destruct (Hnew Habs Hnk) as (_ & Hdb & Hout & Hlist).
  split; [exact (conj Hm (conj Hadd (Hsave alertU _ Hm Hadd)))|].
  split; [exact Habs|]. split; [exact Hnk|].
  split; [rewrite Hdb; vm_compute; reflexivity|].
  exact (conj Hout Hlist).
Defined.

(** * Further properties of the code *)

(** ** [Alert.save]: which keys it touches, and what a repeated save does *)
Section SaveFacts.
Context `{flags : !Flags, externals : !Externals}.

(** X1. [save] changes at most two keys of the store: [alert_urls] and the
    alert's own key. Every other key is as it was, whatever the replies. *)
Theorem save_touches_two_keys (a : Alert) (w : World) (k : string) :
  k <> alert_urls -> k <> GeneratorURL a -> db (save a w).2 !! k = db w !! k.
Proof.
  intros Hau Hk. unfold save.
  assert (Hc : forall c, cmdKey c = alert_urls \/ cmdKey c = GeneratorURL a ->
                         k <> cmdKey c) by (intros c [->| ->]; done).
  destruct (json_Marshal_Alert a) as [data|err]; [|done]. run.
  destruct (Redis.Int _); run; [|by rewrite exec_frame by (apply Hc; by left)].
  destruct (match Redis.Str _ with Ok r => _ | Err _ => false end); run.
  { rewrite !exec_frame; [done|apply Hc; by left|apply Hc; by right]. }
  destruct (Redis.Str _) as [status|]; run.
  2:{ rewrite !exec_frame; [done|apply Hc; by left|apply Hc; by right..]. }
  destruct (String.eqb status "OK"); run.
  all: destruct (match Redis.Int _ with Ok ttl => _ | Err _ => None end); run.
  all: try destruct (Redis.Int _) as [code|]; run.
  all: try destruct (code =? 1); run.
  all: rewrite !exec_frame; [done|apply Hc; by left|apply Hc; by right..].
Qed.

Lemma fv_silence (data : string) (h : gmap string string) :
  (<["alert" := data]> (<["silence" := "false"]> ∅) ∪ h) !! "silence" = Some "false".
Proof. apply lookup_union_Some_l. by rewrite lookup_insert_ne, lookup_insert_eq. Qed.

Lemma fv_alert (data : string) (h : gmap string string) :
  (<["alert" := data]> (<["silence" := "false"]> ∅) ∪ h) !! "alert" = Some data.
Proof. apply lookup_union_Some_l. by rewrite lookup_insert_eq. Qed.

Lemma fv_other (data : string) (h : gmap string string) (f : string) :
  f <> "alert" -> f <> "silence" ->
  (<["alert" := data]> (<["silence" := "false"]> ∅) ∪ h) !! f = h !! f.
Proof.
  intros Ha Hs. rewrite lookup_union, !lookup_insert_ne, lookup_empty by done.
  by destruct (h !! f).
Qed.

Lemma fv_absorbed (data : string) (h : gmap string string) :
  h !! "alert" = Some data -> h !! "silence" = Some "false" ->
  <["alert" := data]> (<["silence" := "false"]> ∅) ∪ h = h.
Proof.
  intros Ha Hs. apply map_eq. intros f. rewrite lookup_union.
  destruct (decide (f = "alert")) as [->|Hfa].
  { rewrite lookup_insert_eq, Ha. done. }
  rewrite lookup_insert_ne by done.
  destruct (decide (f = "silence")) as [->|Hfs].
  { rewrite lookup_insert_eq, Hs. done. }
  rewrite lookup_insert_ne, lookup_empty by done. by destruct (h !! f).
Qed.

(** On a store in which the key is known and its record settled, [save]
    changes nothing. *)
Lemma save_settled a w data s e :
  json_Marshal_Alert a = Ok data ->
  GeneratorURL a <> alert_urls ->
  db w !! alert_urls = Some {| Redis.value := Redis.VSet s; Redis.expire := e |} ->
  GeneratorURL a ∈ s ->
  settled data (db w) (GeneratorURL a) ->
  db (save a w).2 = db w.
Proof.
  intros Hm Hka E Hin. unfold settled, save. rewrite Hm. set (k := GeneratorURL a) in *.
  assert (Hka' : alert_urls <> k) by done.
  assert (Hs : {[k]} ∪ s = s) by (apply subseteq_union_1_L; by apply singleton_subseteq_l).
  destruct (db w !! k) as [[[hk|sk] ex]|] eqn:Ek; go; rewrite ?Hs.
  - intros [Ht|(Ha & Hf & [t ->])].
    + rewrite Ht. go. by rewrite insert_id.
    + rewrite Hf. go. rewrite fv_absorbed by done.
      assert (Hle : (0 <=? Z.of_N t) = true) by (apply Z.leb_le; lia).
      rewrite Hle. go. rewrite insert_id by by lookups. by rewrite insert_id.
  - intros _. by rewrite insert_id.
  - intros Hexp. apply Z.leb_le in Hexp as Hexp'. rewrite Hexp'. go.
    rewrite delete_insert_eq, delete_id by by lookups. by rewrite insert_id.
Qed.

(** A [save] whose [SADD] is answered leaves the key known and its record
    settled. *)
Lemma save_settles a w data :
  json_Marshal_Alert a = Ok data ->
  GeneratorURL a <> alert_urls ->
  isError (Redis.exec (Redis.SADD alert_urls (GeneratorURL a)) (db w)).1 = false ->
  (exists s e, db (save a w).2 !! alert_urls
               = Some {| Redis.value := Redis.VSet s; Redis.expire := e |}
               /\ GeneratorURL a ∈ s)
  /\ settled data (db (save a w).2) (GeneratorURL a).
Proof.
  intros Hm Hka. unfold settled, save. rewrite Hm. set (k := GeneratorURL a) in *.
  assert (Hka' : alert_urls <> k) by done.
  cbn [Redis.exec].
  destruct (db w !! alert_urls) as [[[h|s] e]|] eqn:E; cbn [fst isError Redis.wrongType];
    [done| |]; intros _; go.
  all: destruct (db w !! k) as [[[hk|sk] [t|]]|] eqn:Ek; go.
  all: try (destruct (hk !! "silence") as [f|] eqn:Ef; go).
  all: try (destruct (String.eqb_spec f "true") as [->|Hft]; go).
  all: try (assert (Hle : (0 <=? Z.of_N t) = true) by (apply Z.leb_le; lia);
            rewrite ?Hle; go).
  all: try (destruct (Z.leb_spec expiration 0) as [Hle0|Hgt0]; go).
  all: (split; [eexists _, _; split; [by lookups|];
                first [by apply elem_of_singleton
                      |apply elem_of_union; left; by apply elem_of_singleton]|]).
  all: lookups; rewrite ?fv_silence, ?fv_alert; try done.
  all: try (left; done).
  all: try (right; done).
Qed.

(** X2. Saving the same alert a second time changes nothing in the store:
    the key is already known, the payload and the flag are already there,
    and the TTL that the first save started is left running. This holds for
    every store, every configuration and every reply. *)
Theorem save_twice (a : Alert) (w : World) :
  db (save a (save a w).2).2 = db (save a w).2.
Proof.
  destruct (json_Marshal_Alert a) as [data|err] eqn:Hm;
    [|unfold save; by rewrite Hm].
  destruct (decide (GeneratorURL a = alert_urls)) as [Hka|Hka].
  { unfold save. rewrite Hm, Hka.
    destruct (db w !! alert_urls) as [[[h|s] e]|] eqn:E; go; try done.
    all: rewrite insert_insert_eq; do 2 f_equal.
    all: by rewrite (assoc_L (∪)), (idemp_L (∪)). }
  destruct (isError (Redis.exec (Redis.SADD alert_urls (GeneratorURL a)) (db w)).1)
    eqn:Hadd.
  { assert (db (save a w).2 = db w) as Hsame.
    { unfold save. rewrite Hm. go. revert Hadd. cbn [Redis.exec].
      by destruct (db w !! alert_urls) as [[[h|s] e]|]. }
    unfold save at 1. rewrite Hm. go. rewrite Hsame. revert Hadd. cbn [Redis.exec].
    by destruct (db w !! alert_urls) as [[[h|s] e]|]. }
  destruct (save_settles a w data Hm Hka Hadd) as [(s & e & E & Hin) Hset].
  by apply (save_settled a _ data s e).
Qed.

(** The record that a [save] which goes through leaves under its key, when
    the key was absent ([h] empty, no expiry) or held an alert record that
    was not silenced. *)
Lemma save_record a w data h e :
  json_Marshal_Alert a = Ok data ->
  isError (Redis.exec (Redis.SADD alert_urls (GeneratorURL a)) (db w)).1 = false ->
  GeneratorURL a <> alert_urls ->
  (db w !! GeneratorURL a = Some {| Redis.value := Redis.VHash h; Redis.expire := e |}
   \/ (db w !! GeneratorURL a = None /\ h = ∅ /\ e = None)) ->
  h !! "silence" <> Some "true" ->
  is_Some e \/ 0 < expiration ->
  db (save a w).2 !! GeneratorURL a =
  Some {| Redis.value := Redis.VHash (<["alert" := data]> (<["silence" := "false"]> ∅) ∪ h);
          Redis.expire := Some (match e with Some t => t | None => Z.to_N expiration end) |}.
Proof.
  intros Hm Hadd Hka Hk Hns Hexp. revert Hadd.
  unfold save. rewrite Hm. set (k := GeneratorURL a) in *.
  assert (Hka' : alert_urls <> k) by done.
  cbn [Redis.exec].
  destruct (db w !! alert_urls) as [[[h'|s] e']|] eqn:E; cbn [fst isError Redis.wrongType];
    [done| |]; intros _.
  all: destruct Hk as [Ek|(Ek & -> & ->)].
  all: go.
  all: try (assert (match h !! "silence" with Some r => String.eqb r "true" | None => false end
               = false) as Hf
    by (destruct (h !! "silence") as [r|]; [|done];
        apply String.eqb_neq; congruence);
    destruct (h !! "silence") as [r|]; cbn [Redis.bulk Redis.Str] in *; rewrite ?Hf; go).
  all: try (destruct e as [t|]; go).
  all: try (assert (Hle : (0 <=? Z.of_N t) = true) by (apply Z.leb_le; lia);
            rewrite ?Hle; go).
  all: try (destruct Hexp as [[? [=]]|Hpos]).
  all: try (destruct (Z.leb_spec expiration 0); [lia|]; go).
  all: lookups; rewrite ?(right_id_L (∅ : gmap string string) (∪)); try done.
Qed.

(** X3. An alert that fires again while its record is stored and not
    silenced: the payload is replaced by the new one, the flag is [false],
    every other field of the hash is kept, and a TTL that is running is not
    started again (the record expires at the time the first save set); only
    a record without expiry gets the configured expiration. *)
Theorem save_refire (a : Alert) (w : World) (data : string)
    (h : gmap string string) (e : option N) :
  let k := GeneratorURL a in
  let w' := (save a w).2 in
  json_Marshal_Alert a = Ok data ->
  isError (Redis.exec (Redis.SADD alert_urls k) (db w)).1 = false ->
  db w !! k = Some {| Redis.value := Redis.VHash h; Redis.expire := e |} ->
  h !! "silence" <> Some "true" ->
  is_Some e \/ 0 < expiration ->
  payloadOf (db w') k = Some data
  /\ silenceFlag (db w') k = Some "false"
  /\ (forall f, f <> "alert" -> f <> "silence" -> hashField (db w') k f = h !! f)
  /\ ttlOf (db w') k = match e with Some t => Z.of_N t | None => expiration end.
Proof.
  intros k w' Hm Hadd Ek Hns Hexp. subst w' k.
  assert (Hka : GeneratorURL a <> alert_urls).
  { intros Heq. revert Hadd. rewrite Heq in *. cbn [Redis.exec]. by rewrite Ek. }
  unfold payloadOf, silenceFlag, hashField, ttlOf.
  rewrite (save_record a w data h e) by auto.
  rewrite fv_alert, fv_silence. repeat split; [intros; by apply fv_other|].
  destruct e as [t|]; [done|]. destruct Hexp as [[? [=]]|Hpos]. by rewrite Z2N.id by lia.
Qed.

(** X4. Keys of the wrong kind. If [alert_urls] holds a hash, [save] stops
    at its first command: the store is unchanged and the failure is logged.
    If the alert's own key holds a set, [save] still adds the key to
    [alert_urls], then both the read of the flag and the write of the
    payload are refused, the failure is logged, and the key stays in the set
    without a record. *)
Theorem save_wrong_type (a : Alert) (w : World) (data : string) :
  let k := GeneratorURL a in
  let w' := (save a w).2 in
  json_Marshal_Alert a = Ok data ->
  (forall h e,
     db w !! alert_urls = Some {| Redis.value := Redis.VHash h; Redis.expire := e |} ->
     db w' = db w
     /\ issued (save a) w = [(Redis.SADD alert_urls k, Redis.wrongType)]
     /\ logs w' = logs w ++ [LogSaveFailed k wrongTypeMsg])
  /\ (forall s e,
       db w !! k = Some {| Redis.value := Redis.VSet s; Redis.expire := e |} ->
       k <> alert_urls ->
       isError (Redis.exec (Redis.SADD alert_urls k) (db w)).1 = false ->
       db w' = (Redis.exec (Redis.SADD alert_urls k) (db w)).2
       /\ k ∈ knownKeys (db w')
       /\ (exists added,
             issued (save a) w =
             [(Redis.SADD alert_urls k, Redis.RInt added);
              (Redis.HGET k "silence", Redis.wrongType);
              (Redis.HMSET k (<["alert" := data]> (<["silence" := "false"]> ∅)),
               Redis.wrongType)])
       /\ logs w' = logs w ++ [LogSaveFailed k wrongTypeMsg]).
Proof.
  intros k w' Hm. subst w'. unfold issued, save. rewrite Hm. fold k. split.
  - intros h e E. go. by rewrite drop_app_length.
  - intros s e Ek Hka. cbn [Redis.exec].
    assert (Hka' : alert_urls <> k) by done.
    destruct (db w !! alert_urls) as [[[h'|s'] e']|] eqn:E;
      cbn [fst isError Redis.wrongType]; [done| |]; intros _; go.
    all: rewrite <- !app_assoc, drop_app_length.
    all: split; [done|]; split;
      [unfold knownKeys; cbn [db]; change "alert_urls" with alert_urls; lookups|].
    1,3: first [by apply elem_of_singleton
               |apply elem_of_union; left; by apply elem_of_singleton].
    all: split; [by eexists|done].
Qed.

(** While the key is stored with silence flag [true], [save] leaves the
    key's record as it is. *)
Lemma save_keeps_silenced a w :
  silenceFlag (db w) (GeneratorURL a) = Some "true" ->
  db (save a w).2 !! GeneratorURL a = db w !! GeneratorURL a.
Proof.
  intros Hs. unfold silenceFlag, hashField in Hs. set (k := GeneratorURL a) in *.
  destruct (db w !! k) as [[[h|st] e]|] eqn:Ek; try done.
  unfold save. fold k. destruct (json_Marshal_Alert a) as [data|err]; [|done].
  destruct (decide (k = alert_urls)) as [Hka|Hka].
  { rewrite Hka in *. go. done. }
  assert (Hka' : alert_urls <> k) by done.
  destruct (db w !! alert_urls) as [[[h'|s'] e']|] eqn:E; go; by lookups.
Qed.

(** What [save] does to the store depends on the store alone. *)
Lemma save_frame a w w1 : db w1 = db w -> db (save a w1).2 = db (save a w).2.
Proof.
  intros Hdb. unfold save. destruct (json_Marshal_Alert a) as [data|err]; [|done].
  run. rewrite Hdb.
  destruct (Redis.Int _); run; [|done].
  destruct (match Redis.Str _ with Ok r => _ | Err _ => false end); run; [done|].
  destruct (Redis.Str _) as [status|]; run; [|done].
  destruct (String.eqb status "OK"); run.
  all: destruct (match Redis.Int _ with Ok ttl => _ | Err _ => None end); run; [done|].
  all: destruct (Redis.Int _) as [code|]; run; [|done].
  all: by destruct (code =? 1).
Qed.

Lemma forEach_save_frame l w w1 :
  db w1 = db w -> db (forEach l save w1).2 = db (forEach l save w).2.
Proof.
  revert w w1. induction l as [|a l IH]; intros w w1 Hdb; [done|].
  cbn [forEach]. rewrite !bind_run. by apply IH, save_frame.
Qed.

Lemma save_posts a w : posts (save a w).2 = posts w.
Proof.
  unfold save. destruct (json_Marshal_Alert a) as [data|err]; [|done].
  run.
  destruct (Redis.Int _); run; [|done].
  destruct (match Redis.Str _ with Ok r => _ | Err _ => false end); run; [done|].
  destruct (Redis.Str _) as [status|]; run; [|done].
  destruct (String.eqb status "OK"); run.
  all: destruct (match Redis.Int _ with Ok ttl => _ | Err _ => None end); run; [done|].
  all: destruct (Redis.Int _) as [code|]; run; [|done].
  all: by destruct (code =? 1).
Qed.

Lemma forEach_save_posts l w : posts (forEach l save w).2 = posts w.
Proof.
  revert w. induction l as [|a l IH]; intros w; [done|].
  cbn [forEach]. by rewrite bind_run, IH, save_posts.
Qed.

Lemma save_logs a w : exists ls, logs (save a w).2 = logs w ++ ls.
Proof.
  unfold save. destruct (json_Marshal_Alert a) as [data|err]; [|by eexists].
  run.
  destruct (Redis.Int _); run; [|by eexists].
  destruct (match Redis.Str _ with Ok r => _ | Err _ => false end); run; [by eexists|].
  destruct (Redis.Str _) as [status|]; run; [|by eexists].
  destruct (String.eqb status "OK"); run.
  all: destruct (match Redis.Int _ with Ok ttl => _ | Err _ => None end); run;
    [rewrite <- ?app_assoc; by eexists|].
  all: destruct (Redis.Int _) as [code|]; run; [|rewrite <- ?app_assoc; by eexists].
  all: destruct (code =? 1); run; rewrite <- ?app_assoc; try by eexists.
  all: exists []; by rewrite app_nil_r.
Qed.

Lemma forEach_save_logs l w : exists ls, logs (forEach l save w).2 = logs w ++ ls.
Proof.
  revert w. induction l as [|a l IH]; intros w.
  - exists []. cbn. by rewrite app_nil_r.
  - cbn [forEach]. rewrite bind_run. destruct (IH (save a w).2) as [ls ->].
    destruct (save_logs a w) as [ls' ->]. exists (ls' ++ ls). by rewrite app_assoc.
Qed.

Lemma SADD_set d k :
  notHash (d !! alert_urls) ->
  isError (Redis.exec (Redis.SADD alert_urls k) d).1 = false
  /\ notHash ((Redis.exec (Redis.SADD alert_urls k) d).2 !! alert_urls).
Proof.
  cbn. destruct (d !! alert_urls) as [[[h|s] e]|]; cbn; [done| |]; intros _.
  all: by rewrite lookup_insert_eq.
Qed.

(** [save] changes [alert_urls] through its [SADD] only. *)
Lemma save_set a w :
  db (save a w).2 !! alert_urls = db w !! alert_urls
  \/ db (save a w).2 !! alert_urls =
     (Redis.exec (Redis.SADD alert_urls (GeneratorURL a)) (db w)).2 !! alert_urls.
Proof.
  unfold save. destruct (json_Marshal_Alert a) as [data|err]; [|by left].
  set (k := GeneratorURL a). destruct (decide (k = alert_urls)) as [Hk|Hk].
  - rewrite Hk. destruct (db w !! alert_urls) as [[[h|s] e]|] eqn:E; go; by right.
  - right. run.
    assert (Hk' : forall c, cmdKey c = k -> alert_urls <> cmdKey c) by (by intros c ->).
    assert (Hfr : forall c d, cmdKey c = k ->
                    (Redis.exec c d).2 !! alert_urls = d !! alert_urls).
    { intros c d Hc. apply exec_frame. by apply Hk'. }
    set (d1 := (Redis.exec (Redis.SADD alert_urls k) (db w)).2).
    destruct (Redis.Int _); run; [|done].
    destruct (match Redis.Str _ with Ok r => _ | Err _ => false end); run;
      [by rewrite Hfr|].
    destruct (Redis.Str _) as [status|]; run; [|by rewrite !Hfr].
    destruct (String.eqb status "OK"); run.
    all: destruct (match Redis.Int _ with Ok ttl => _ | Err _ => None end); run;
      [by rewrite !Hfr|].
    all: destruct (Redis.Int _) as [code|]; run; [|by rewrite !Hfr].
    all: destruct (code =? 1); run; by rewrite !Hfr.
Qed.

Lemma save_notHash a w :
  notHash (db w !! alert_urls) -> notHash (db (save a w).2 !! alert_urls).
Proof.
  intros Hn. destruct (save_set a w) as [-> | ->]; [done|]. by apply SADD_set.
Qed.

Lemma save_known_mono a w :
  notHash (db w !! alert_urls) -> knownKeys (db w) ⊆ knownKeys (db (save a w).2).
Proof.
  intros Hn. destruct (json_Marshal_Alert a) as [data|err] eqn:Hm.
  - rewrite (save_known a w data Hm) by by apply SADD_set.
    apply union_subseteq_r.
  - unfold save. by rewrite Hm.
Qed.

Lemma forEach_save_known l w a data :
  notHash (db w !! alert_urls) ->
  (a ∈ l /\ json_Marshal_Alert a = Ok data \/ GeneratorURL a ∈ knownKeys (db w)) ->
  GeneratorURL a ∈ knownKeys (db (forEach l save w).2).
Proof.
  revert w. induction l as [|b l IH]; intros w Hn Hcase.
  - destruct Hcase as [[Hin _]|Hk]; [by apply elem_of_nil in Hin|done].
  - cbn [forEach]. rewrite bind_run. apply IH; [by apply save_notHash|].
    destruct Hcase as [[Hin Hm]|Hk].
    + apply elem_of_cons in Hin as [->|Hin]; [|by left].
      right. rewrite (save_known b w data Hm) by by apply SADD_set.
      apply elem_of_union_l. by apply elem_of_singleton.
    + right. by apply (save_known_mono b w Hn).
Qed.
End SaveFacts.

(** ** [Silence.silence]: what it leaves alone, and silence before or after
    a save *)
Section SilenceMore.
Context `{flags : !Flags, externals : !Externals}.

(** X5. If the key of a silence request holds a set, the request's first
    command is refused: nothing else is sent, the store is unchanged, and
    the failure is logged. *)
Theorem silence_wrong_type (s : Silence) (w : World) (st : gset string) (e : option N) :
  db w !! URL s = Some {| Redis.value := Redis.VSet st; Redis.expire := e |} ->
  db (silence s w).2 = db w
  /\ issued (silence s) w = [(Redis.HSET (URL s) "silence" "true", Redis.wrongType)]
  /\ logs (silence s w).2 = logs w ++ [LogSilenceFailed (URL s) wrongTypeMsg].
Proof.
  intros E. unfold issued, silence. go. by rewrite drop_app_length.
Qed.

(** After [silence] the key's record is gone or is the record that [HSET]
    left, with another expiry. *)
Lemma silence_record s w h e :
  (Redis.exec (Redis.HSET (URL s) "silence" "true") (db w)).2 !! URL s
    = Some {| Redis.value := Redis.VHash h; Redis.expire := e |} ->
  isError (Redis.exec (Redis.HSET (URL s) "silence" "true") (db w)).1 = false ->
  db (silence s w).2 !! URL s = None
  \/ exists e', db (silence s w).2 !! URL s
                = Some {| Redis.value := Redis.VHash h; Redis.expire := e' |}.
Proof.
  intros E Hok. destruct (silence_run s w Hok) as [-> _]. cbn zeta.
  set (d1 := (Redis.exec (Redis.HSET (URL s) "silence" "true") (db w)).2) in *.
  clearbody d1. unfold expiryCmd.
  destruct (Duration s <? 0); [|destruct (Duration s =? 0)]; cbn [Redis.exec]; rewrite E.
  - destruct e; cbn [snd]; right; eexists; [by rewrite lookup_insert_eq|done].
  - destruct (silenceDuration <=? 0); cbn [snd];
      [left; by rewrite lookup_delete_eq|right; eexists; by rewrite lookup_insert_eq].
  - destruct (Duration s <=? 0); cbn [snd];
      [left; by rewrite lookup_delete_eq|right; eexists; by rewrite lookup_insert_eq].
Qed.

(** X6. [silence] changes one key only, and in that key's hash one field
    only: every other key is as it was, and the record of the key, unless
    the expiry command removed it, has the payload and every field other
    than [silence] as before. *)
Theorem silence_touches_one_field (s : Silence) (w : World) :
  let w' := (silence s w).2 in
  (forall k, k <> URL s -> db w' !! k = db w !! k)
  /\ (db w' !! URL s = None
      \/ forall f, f <> "silence" ->
           hashField (db w') (URL s) f = hashField (db w) (URL s) f).
Proof.
  intros w'. subst w'. split; [intros k Hk; by apply silence_other|].
  destruct (isError (Redis.exec (Redis.HSET (URL s) "silence" "true") (db w)).1) eqn:Hok.
  { right. intros f _. unfold hashField. by rewrite silence_failed. }
  destruct (HSET_reply _ _ _ _ Hok) as (created & h & e & Hrun & Hf).
  destruct (silence_record s w h e) as [Hnone|[e' He']];
    [by rewrite Hrun; cbn; lookups|done|by left|].
  right. intros f Hfs. unfold hashField. rewrite He'.
  revert Hrun. cbn [Redis.exec].
  destruct (db w !! URL s) as [[[h0|st] e0]|] eqn:E0; [|done|].
  - intros [= _ Hh]. apply (f_equal (fun m => m !! URL s)) in Hh.
    rewrite !lookup_insert_eq in Hh. injection Hh as <- _.
    by rewrite lookup_insert_ne.
  - intros [= _ Hh]. apply (f_equal (fun m => m !! URL s)) in Hh.
    rewrite !lookup_insert_eq in Hh. injection Hh as <- _.
    by rewrite lookup_singleton_ne.
Qed.

(** The state of the key after a [silence] that goes through. *)
Lemma silence_state s w :
  isError (Redis.exec (Redis.HSET (URL s) "silence" "true") (db w)).1 = false ->
  (Duration s = 0 -> 0 < silenceDuration) ->
  silenceFlag (db (silence s w).2) (URL s) = Some "true"
  /\ payloadOf (db (silence s w).2) (URL s) = payloadOf (db w) (URL s)
  /\ ttlOf (db (silence s w).2) (URL s) = silenceTTL s.
Proof.
  intros Hok Hcfg. destruct (silence_run s w Hok) as [-> _]. cbn zeta.
  unfold silenceFlag, payloadOf, hashField, ttlOf, silenceTTL, expiryCmd.
  revert Hok. cbn [Redis.exec].
  destruct (db w !! URL s) as [[[h|st] e]|] eqn:E; cbn [fst snd isError Redis.wrongType];
    [intros _|done|intros _].
  all: destruct (Z.ltb_spec (Duration s) 0);
    [|destruct (Z.eqb_spec (Duration s) 0)]; cbn [Redis.exec]; lookups.
  all: try destruct e as [t|]; cbn [snd]; lookups.
  all: try (destruct (Z.leb_spec silenceDuration 0); [lia|]; cbn [snd]; lookups).
  all: try (destruct (Z.leb_spec (Duration s) 0); [lia|]; cbn [snd]; lookups).
  all: rewrite ?lookup_singleton_eq, ?lookup_singleton_ne, ?lookup_insert_ne by done.
  all: rewrite ?Z2N.id by lia; done.
Qed.

(** X7. A silenced alert that fires again stays silenced: after a [silence]
    that goes through, a [save] for the same key leaves the key's record as
    the silence left it, with flag [true] and the TTL the request asked
    for, so the new payload is not stored. *)
Theorem silenced_alert_refires (s : Silence) (a : Alert) (w : World) :
  let w1 := (silence s w).2 in
  let w2 := (save a w1).2 in
  GeneratorURL a = URL s ->
  isError (Redis.exec (Redis.HSET (URL s) "silence" "true") (db w)).1 = false ->
  (Duration s = 0 -> 0 < silenceDuration) ->
  db w2 !! URL s = db w1 !! URL s
  /\ silenceFlag (db w2) (URL s) = Some "true"
  /\ ttlOf (db w2) (URL s) = silenceTTL s.
Proof.
  intros w1 w2 Hk Hok Hcfg. subst w1 w2.
  destruct (silence_state s w Hok Hcfg) as (Hflag & _ & Httl).
  assert (Hsame : db (save a (silence s w).2).2 !! URL s = db (silence s w).2 !! URL s).
  { rewrite <- Hk. apply save_keeps_silenced. by rewrite Hk. }
  unfold silenceFlag, hashField, ttlOf in *. by rewrite Hsame.
Qed.

Lemma silence_posts s w : posts (silence s w).2 = posts w.
Proof.
  unfold silence. run.
  destruct (Redis.Int _) as [code|e]; [|by run].
  destruct (code =? 1), (Duration s <? 0), (Duration s =? 0); by run.
Qed.

(** After [silence], the key has no entry with TTL 0. *)
Lemma silence_entry s w st :
  entryOf (db (silence s w).2) (URL s) = Some st -> TTL st <> 0.
Proof.
  destruct (isError (Redis.exec (Redis.HSET (URL s) "silence" "true") (db w)).1) eqn:Hok.
  { rewrite (entryOf_ext (db w)) by by rewrite silence_failed.
    revert Hok. unfold entryOf, readFields. cbn [Redis.exec].
    by destruct (db w !! URL s) as [[[h|st'] e]|]. }
  destruct (silence_run s w Hok) as [-> _]. cbn zeta.
  destruct (HSET_reply _ _ _ _ Hok) as (created & h & e & Hrun & Hf). rewrite Hrun.
  cbn [snd]. unfold entryOf, readFields, ttlOf, expiryCmd.
  destruct (Z.ltb_spec (Duration s) 0); [|destruct (Z.eqb_spec (Duration s) 0)];
    cbn [Redis.exec]; lookups.
  all: try destruct e as [t|]; cbn [fst snd]; lookups.
  all: try (destruct (Z.leb_spec silenceDuration 0); cbn [fst snd]; lookups).
  all: try (destruct (Z.leb_spec (Duration s) 0); [lia|]; cbn [fst snd]; lookups).
  all: cbn; rewrite ?Hf; cbn; try done.
  all: destruct (h !! "alert") as [p|]; cbn; try done.
  all: destruct (String.eqb p ""); try done.
  all: destruct (json_Unmarshal_Alert p) as [a [err|]]; try done.
  all: intros [= <-]; cbn; lia.
Qed.
End SilenceMore.

(** ** [getAlerts]: its effect on the store, and what its entries are *)
Section ListFacts.
Context `{flags : !Flags, externals : !Externals}.

Lemma readFields_hash d k h e :
  d !! k = Some {| Redis.value := Redis.VHash h; Redis.expire := e |} ->
  readFields d k = Ok [default "" (h !! "alert"); default "" (h !! "silence")].
Proof.
  intros E. unfold readFields. cbn. rewrite E.
  by destruct (h !! "alert"), (h !! "silence").
Qed.

Lemma stale_set d k s e :
  d !! k = Some {| Redis.value := Redis.VSet s; Redis.expire := e |} -> stale d k = false.
Proof. intros E. unfold stale. by destruct (readFields_set _ _ _ _ E) as [err ->]. Qed.

Lemma stale_known d : alert_urls ∈ knownKeys d -> stale d alert_urls = false.
Proof.
  unfold knownKeys. change "alert_urls" with alert_urls.
  destruct (d !! alert_urls) as [[[h|s] e]|] eqn:E;
    [by intros ?%elem_of_empty| |by intros ?%elem_of_empty].
  intros _. by eapply stale_set.
Qed.

Lemma stale_ext d d' k : d' !! k = d !! k -> stale d' k = stale d k.
Proof. intros Heq. unfold stale. by rewrite (readFields_ext d d'). Qed.

Lemma stale_entry d k : stale d k = true -> entryOf d k = None.
Proof.
  unfold stale, entryOf. destruct (readFields d k) as [[|p [|f [|? ?]]]|]; try done.
  by intros ->.
Qed.

Lemma body_known_eq url as_ w :
  knownKeys (db (getAlerts_body url as_ w).2) =
  if stale (db w) url then knownKeys (db w) ∖ {[url]} else knownKeys (db w).
Proof.
  rewrite body_db. unfold stale. destruct (readFields (db w) url) as [[|p ?]|]; try done.
  destruct (String.eqb p ""); [|done]. apply SREM_known.
Qed.

Lemma body_fresh url as_ w :
  stale (db w) url = false -> db (getAlerts_body url as_ w).2 = db w.
Proof.
  rewrite body_db. unfold stale. destruct (readFields (db w) url) as [[|p ?]|]; try done.
  by intros ->.
Qed.

(** The known keys after the loop: those it did not find stale. A loop that
    comes to the key [alert_urls] itself finds a set there. *)
Lemma loop_known_iff urls as_ w :
  (alert_urls ∈ urls -> alert_urls ∈ knownKeys (db w)) ->
  forall k, k ∈ knownKeys (db (getAlerts_loop urls as_ w).2) <->
            k ∈ knownKeys (db w) /\ ¬ (k ∈ urls /\ stale (db w) k = true).
Proof.
  revert as_ w. induction urls as [|url urls IH]; intros as_ w Hself k.
  { cbn. split; [|tauto]. intros Hk. split; [done|].
    intros [Hin _]. by apply elem_of_nil in Hin. }
  cbn [getAlerts_loop]. rewrite bind_run.
  set (w1 := (getAlerts_body url as_ w).2). set (as1 := (getAlerts_body url as_ w).1).
  assert (Hk1 : knownKeys (db w1) =
                if stale (db w) url then knownKeys (db w) ∖ {[url]} else knownKeys (db w))
    by apply body_known_eq.
  assert (Hst : forall k', k' ∈ knownKeys (db w1) -> stale (db w1) k' = stale (db w) k').
  { intros k' Hk'. destruct (decide (k' = alert_urls)) as [->|Hne].
    - rewrite (stale_known _ Hk'). symmetry. apply stale_known.
      by apply (body_known url as_ w).
    - apply stale_ext. by apply body_other. }
  rewrite IH; clear IH.
  - split.
    + intros [Hin Hns]. split; [by apply (body_known url as_ w)|].
      intros [Hurl Hs]. apply elem_of_cons in Hurl as [->|Hurl].
      * revert Hin. rewrite Hk1, Hs, elem_of_difference, elem_of_singleton. tauto.
      * apply Hns. split; [done|]. by rewrite Hst.
    + intros [Hin Hns].
      assert (Hin1 : k ∈ knownKeys (db w1)).
      { rewrite Hk1. destruct (stale (db w) url) eqn:Hs; [|done].
        rewrite elem_of_difference, elem_of_singleton. split; [done|].
        intros ->. apply Hns. split; [left|done]. }
      split; [done|]. intros [Hurl Hs]. apply Hns. split; [by right|].
      by rewrite <- Hst.
  - intros Hurls. assert (Ha : alert_urls ∈ knownKeys (db w)).
    { apply Hself. by right. }
    rewrite Hk1. destruct (stale (db w) url) eqn:Hs; [|done].
    rewrite elem_of_difference, elem_of_singleton. split; [done|].
    intros <-. by rewrite (stale_known _ Ha) in Hs.
Qed.

Lemma loop_fresh urls as_ w :
  (forall k, k ∈ urls -> stale (db w) k = false) ->
  db (getAlerts_loop urls as_ w).2 = db w.
Proof.
  revert as_ w. induction urls as [|url urls IH]; intros as_ w Hall; [done|].
  cbn [getAlerts_loop]. rewrite bind_run.
  assert (Hb : db (getAlerts_body url as_ w).2 = db w) by (apply body_fresh, Hall; left).
  rewrite IH; [done|]. intros k Hk. rewrite Hb. apply Hall. by right.
Qed.

Lemma getAlerts_hash w h e :
  db w !! alert_urls = Some {| Redis.value := Redis.VHash h; Redis.expire := e |} ->
  db (getAlerts w).2 = db w.
Proof. intros E. unfold getAlerts. run. cbn [Redis.exec]. rewrite E. by run. Qed.

Lemma getAlerts_absent w : db w !! alert_urls = None -> db (getAlerts w).2 = db w.
Proof. intros E. unfold getAlerts. run. cbn [Redis.exec]. rewrite E. by run. Qed.

Lemma getAlerts_other w k : k <> alert_urls -> db (getAlerts w).2 !! k = db w !! k.
Proof.
  intros Hk. destruct (db w !! alert_urls) as [[[h|s] e]|] eqn:E.
  - by rewrite (getAlerts_hash _ _ _ E).
  - rewrite (getAlerts_run _ _ _ E). by rewrite loop_other.
  - by rewrite (getAlerts_absent _ E).
Qed.

Lemma getAlerts_same w : sameRecords (db w) (db (getAlerts w).2).
Proof.
  destruct (db w !! alert_urls) as [[[h|s] e]|] eqn:E.
  - rewrite (getAlerts_hash _ _ _ E). apply sameRecords_refl.
  - rewrite (getAlerts_run _ _ _ E).
    by destruct (loop_result (db w) (elements s) []
                   {| db := db w;
                      wire := wire w ++ [(Redis.SMEMBERS alert_urls,
                                          Redis.RArray (Redis.RBulk <$> elements s))];
                      logs := logs w; posts := posts w |} (sameRecords_refl _)).
  - rewrite (getAlerts_absent _ E). apply sameRecords_refl.
Qed.

Lemma getAlerts_known_iff w k :
  k ∈ knownKeys (db (getAlerts w).2) <-> k ∈ knownKeys (db w) /\ stale (db w) k = false.
Proof.
  destruct (db w !! alert_urls) as [[[h|s] e]|] eqn:E.
  - rewrite (getAlerts_hash _ _ _ E).
    unfold knownKeys. change "alert_urls" with alert_urls. rewrite E.
    split; [by intros ?%elem_of_empty|by intros [?%elem_of_empty _]].
  - rewrite (getAlerts_run _ _ _ E).
    assert (Hk : knownKeys (db w) = s).
    { unfold knownKeys. change "alert_urls" with alert_urls. by rewrite E. }
    rewrite loop_known_iff; cbn [db].
    + rewrite Hk, elem_of_elements.
      destruct (stale (db w) k); split; intros [? ?]; split; try done.
      * exfalso. tauto.
      * by intros [_ ?].
    + rewrite Hk. by intros ?%elem_of_elements.
  - rewrite (getAlerts_absent _ E).
    unfold knownKeys. change "alert_urls" with alert_urls. rewrite E.
    split; [by intros ?%elem_of_empty|by intros [?%elem_of_empty _]].
Qed.

(** X8. The whole effect of [getAlerts] on the store: the known keys after
    the call are exactly the known keys whose payload did not read as empty
    (so a key is removed only for that reason), no alert record is changed,
    and nothing is posted. *)
Theorem getAlerts_store (w : World) :
  (forall k, k ∈ knownKeys (db (getAlerts w).2) <->
             k ∈ knownKeys (db w) /\ stale (db w) k = false)
  /\ (forall k, k <> alert_urls -> db (getAlerts w).2 !! k = db w !! k)
  /\ posts (getAlerts w).2 = posts w.
Proof.
  split; [apply getAlerts_known_iff|]. split; [apply getAlerts_other|apply getAlerts_posts].
Qed.

Lemma getAlerts_settled w :
  (forall k, k ∈ knownKeys (db w) -> stale (db w) k = false) ->
  db (getAlerts w).2 = db w.
Proof.
  intros Hall. destruct (db w !! alert_urls) as [[[h|s] e]|] eqn:E.
  - by rewrite (getAlerts_hash _ _ _ E).
  - rewrite (getAlerts_run _ _ _ E). rewrite loop_fresh; [done|]. cbn [db].
    intros k Hk%elem_of_elements. apply Hall.
    unfold knownKeys. change "alert_urls" with alert_urls. by rewrite E.
  - by rewrite (getAlerts_absent _ E).
Qed.

(** A call of [getAlerts] on the store that a call left changes nothing and
    returns the same entries, up to their order. *)
Lemma getAlerts_again w w1 :
  db w1 = db (getAlerts w).2 ->
  db (getAlerts w1).2 = db w1 /\ (getAlerts w1).1 ≡ₚ (getAlerts w).1.
Proof.
  intros Hdb. split.
  - apply getAlerts_settled. intros k Hk. rewrite Hdb in *.
    destruct (decide (k = alert_urls)) as [->|Hne]; [by apply stale_known|].
    apply getAlerts_known_iff in Hk as [_ Hs]. rewrite <- Hs.
    apply stale_ext. by apply getAlerts_other.
  - rewrite !getAlerts_result, Hdb.
    rewrite (omap_ext_in (entryOf (db (getAlerts w).2)) (entryOf (db w)))
      by (intros; apply entryOf_same, getAlerts_same).
    rewrite <- (omap_filter_None (entryOf (db w)) (fun k => stale (db w) k = false)
                  (elements (knownKeys (db w)))).
    + apply omap_Permutation, NoDup_Permutation.
      * apply NoDup_elements.
      * apply NoDup_filter, NoDup_elements.
      * intros k. rewrite elem_of_elements, list_elem_of_filter, elem_of_elements.
        rewrite getAlerts_known_iff. tauto.
    + intros k Hk. apply stale_entry. by destruct (stale (db w) k).
Qed.

(** X9. Listing twice: the second call of [getAlerts] finds nothing more
    to remove, so it leaves the store as the first call left it, and it
    returns the entries of the first call, up to their order. *)
Theorem getAlerts_twice (w : World) :
  let w1 := (getAlerts w).2 in
  db (getAlerts w1).2 = db w1
  /\ (getAlerts w1).1 ≡ₚ (getAlerts w).1.
Proof. intros w1. by apply getAlerts_again. Qed.

(** X10. Every entry that [getAlerts] returns comes from a known key whose
    stored payload is not empty and parses to the entry's alert; its TTL is
    0 unless the stored silence flag is [true], and then it is the TTL the
    store reports for the key. *)
Theorem getAlerts_sound (w : World) (st : AlertStatus) :
  st ∈ (getAlerts w).1 ->
  exists url payload,
    url ∈ knownKeys (db w)
    /\ payloadOf (db w) url = Some payload
    /\ payload <> ""
    /\ json_Unmarshal_Alert payload = (StatusAlert st, None)
    /\ TTL st = (if decide (silenceFlag (db w) url = Some "true")
                 then ttlOf (db w) url else 0).
Proof.
  rewrite getAlerts_result. intros (url & Hin%elem_of_elements & Hst)%list_elem_of_omap.
  exists url. revert Hst. unfold entryOf, readFields, payloadOf, silenceFlag, hashField.
  cbn [Redis.exec fst].
  destruct (db w !! url) as [[[h|s] e]|] eqn:E; cbn; [|done|done].
  destruct (h !! "alert") as [payload|] eqn:Ha; cbn; [|by destruct (h !! "silence")].
  intros Hst. exists payload. split; [done|]. split; [done|].
  destruct (h !! "silence") as [flag|] eqn:Hf; cbn in Hst.
  all: destruct (String.eqb_spec payload ""); [done|].
  all: destruct (json_Unmarshal_Alert payload) as [a [err|]]; [done|].
  all: injection Hst as <-; cbn; split; [done|]; split; [done|].
  - destruct (String.eqb_spec flag "true") as [->|Hne].
    + by rewrite decide_True.
    + rewrite decide_False; [done|congruence].
  - by rewrite decide_False.
Qed.

(** X11. Silencing an alert that is listed: after a [silence] of a known key
    whose payload parses, [getAlerts] reports the alert with the TTL the
    request asked for: -1 for a negative duration, the configured default
    for duration 0, the duration itself otherwise. *)
Theorem silenced_alert_listed (s : Silence) (w : World) (payload flag : string) (a : Alert) :
  URL s ∈ knownKeys (db w) ->
  readFields (db w) (URL s) = Ok [payload; flag] ->
  payload <> "" ->
  json_Unmarshal_Alert payload = (a, None) ->
  (Duration s = 0 -> 0 < silenceDuration) ->
  {| StatusAlert := a; TTL := silenceTTL s |} ∈ (getAlerts (silence s w).2).1.
Proof.
  intros Hin Hread Hp Hj Hcfg.
  assert (Hok : isError (Redis.exec (Redis.HSET (URL s) "silence" "true") (db w)).1 = false).
  { revert Hread. unfold readFields. cbn.
    by destruct (db w !! URL s) as [[[h|st] e]|]. }
  destruct (silence_state s w Hok Hcfg) as (Hflag & Hpay & Httl).
  rewrite getAlerts_result, silence_known. apply list_elem_of_omap.
  exists (URL s). split; [by apply elem_of_elements|].
  assert (Hread' : readFields (db (silence s w).2) (URL s) = Ok [payload; "true"]).
  { revert Hread Hflag Hpay. unfold readFields, silenceFlag, payloadOf, hashField.
    cbn [Redis.exec fst].
    destruct (db (silence s w).2 !! URL s) as [[[h1|st1] e1]|]; try done.
    destruct (db w !! URL s) as [[[h|st] e]|]; try done.
    - cbn. intros Hr -> ->. revert Hr.
      destruct (h !! "alert") as [p|]; destruct (h !! "silence"); cbn; congruence.
    - cbn. congruence. }
  unfold entryOf. rewrite Hread'. apply String.eqb_neq in Hp as ->.
  rewrite Hj. cbn. by rewrite Httl.
Qed.
End ListFacts.

(** ** [alert]: the scan, alone and after a save or a silence *)
Section ScanFacts.
Context `{flags : !Flags, externals : !Externals}.

Lemma send_wire p w : wire (send p w).2 = wire w.
Proof.
  unfold send. destruct (json_Marshal_Payload p) as [data|e]; run; [|done].
  unfold post. cbn. by destruct (http_Post token data).
Qed.

Lemma forEach_send_wire ps w : wire (forEach ps send w).2 = wire w.
Proof.
  revert w. induction ps as [|p ps IH]; intros w; [done|].
  cbn [forEach]. by rewrite bind_run, IH, send_wire.
Qed.

Lemma alert_wire w : wire (alert w).2 = wire (getAlerts w).2.
Proof.
  unfold alert. rewrite bind_run. generalize (getAlerts w).2.
  induction (getAlerts w).1 as [|st sts IH]; intros w0; [done|].
  cbn [forEach]. rewrite bind_run, IH.
  destruct (TTL st =? 0); [apply forEach_send_wire|done].
Qed.

Lemma requests_token ps p : p ∈ requests ps -> p.1 = token.
Proof.
  unfold requests. intros (q & _ & Hq)%list_elem_of_omap.
  destruct (json_Marshal_Payload q); [|done]. by injection Hq as <-.
Qed.

Lemma alert_posts w :
  posts (alert w).2 =
  posts w ++
  requests (flat_map (fun st => toPayloads (StatusAlert st))
                     (filter (fun st => TTL st = 0) (getAlerts w).1)).
Proof. unfold alert. rewrite bind_run. by rewrite forEach_scan_posts, getAlerts_posts. Qed.

(** X12. A scan talks to the store only through [getAlerts]: sending the
    messages issues no command and changes no key. And everything a scan
    posts goes to the configured webhook. *)
Theorem alert_effects (w : World) :
  db (alert w).2 = db (getAlerts w).2
  /\ wire (alert w).2 = wire (getAlerts w).2
  /\ exists new, posts (alert w).2 = posts w ++ new /\ forall p, p ∈ new -> p.1 = token.
Proof.
  split; [apply alert_db|]. split; [apply alert_wire|].
  eexists. split; [apply alert_posts|]. apply requests_token.
Qed.

(** X13. If [alert_urls] holds a hash, a scan sends its one command, logs
    the reply it cannot read as a list, and does nothing else: no key is
    read, nothing is posted, the store is unchanged. *)
Theorem alert_wrong_type (w : World) (h : gmap string string) (e : option N) :
  db w !! alert_urls = Some {| Redis.value := Redis.VHash h; Redis.expire := e |} ->
  alert w =
  (tt, {| db := db w;
          wire := wire w ++ [(Redis.SMEMBERS alert_urls, Redis.wrongType)];
          logs := logs w ++ [LogExpectedURLList Redis.wrongType];
          posts := posts w |}).
Proof.
  intros E. unfold alert, getAlerts. run. cbn [Redis.exec]. rewrite E. by run.
Qed.

Lemma requests_Permutation ps qs : ps ≡ₚ qs -> requests ps ≡ₚ requests qs.
Proof. intros Hp. unfold requests. by apply omap_Permutation. Qed.

Lemma flat_map_Permutation {A B} (f : A -> list B) l l' :
  l ≡ₚ l' -> flat_map f l ≡ₚ flat_map f l'.
Proof.
  induction 1 as [|x l l' _ IH|x y l|l l' l'' _ IH1 _ IH2]; cbn.
  - done.
  - by rewrite IH.
  - rewrite !app_assoc. f_equiv. apply Permutation_app_comm.
  - by etrans.
Qed.

(** X14. Scans repeat: with no save or silence in between (and no time
    passing), the scan that follows a scan leaves the store as it found it
    and posts the same requests again, up to their order. So an alert that
    is not silenced is sent on every scan. *)
Theorem alert_repeats (w : World) :
  let w1 := (alert w).2 in
  db (alert w1).2 = db w1
  /\ drop (length (posts w1)) (posts (alert w1).2) ≡ₚ drop (length (posts w)) (posts w1).
Proof.
  intros w1. subst w1.
  destruct (getAlerts_again w (alert w).2 (alert_db w)) as [Hd Hp]. split.
  - by rewrite alert_db.
  - rewrite (alert_posts (alert w).2), drop_app_length.
    rewrite (alert_posts w), drop_app_length.
    apply requests_Permutation, flat_map_Permutation. by rewrite Hp.
Qed.

Lemma filter_omap_skip {A B} (f : A -> option B) (P : B -> Prop) (Q : A -> Prop)
    `{forall y, Decision (P y)} `{forall x, Decision (Q x)} (l : list A) :
  (forall x y, ¬ Q x -> f x = Some y -> ¬ P y) ->
  filter P (omap f l) = filter P (omap f (filter Q l)).
Proof.
  intros Hf. induction l as [|x l IH]; [done|].
  rewrite (filter_cons Q). destruct (decide (Q x)) as [Hq|Hq]; cbn.
  - destruct (f x) as [y|]; [|done]. rewrite !filter_cons.
    destruct (decide (P y)); by rewrite IH.
  - destruct (f x) as [y|] eqn:Efx; [|done].
    rewrite filter_cons, decide_False by by eapply Hf. done.
Qed.

(** X15. A silence request mutes its key and no other: whatever the request
    and the store, the scan that follows [silence] posts exactly what a scan
    of the other known keys alone would have posted before the request. *)
Theorem silence_mutes_only_its_key (s : Silence) (w : World) :
  let others := filter (fun k => k <> URL s) (elements (knownKeys (db w))) in
  posts (alert (silence s w).2).2 =
  posts w ++
  requests (flat_map (fun st => toPayloads (StatusAlert st))
                     (filter (fun st => TTL st = 0) (getAlerts_loop others [] w).1)).
Proof.
  intros others. rewrite alert_posts, silence_posts. do 3 f_equal.
  rewrite getAlerts_result, silence_known.
  destruct (loop_result (db w) others [] w (sameRecords_refl _)) as [-> _]. cbn [app].
  rewrite (filter_omap_skip _ _ (fun k => k <> URL s)).
  - f_equal. apply omap_ext_in. intros k [Hk _]%list_elem_of_filter.
    apply entryOf_ext. by apply silence_other.
  - intros k st Hk Hst. destruct (decide (k = URL s)) as [->|]; [|done].
    by eapply silence_entry.
Qed.

Lemma requests_flat_map {A} (f : A -> list Payload) (l : list A) x p body :
  x ∈ l -> p ∈ f x -> json_Marshal_Payload p = Ok body ->
  (token, body) ∈ requests (flat_map f l).
Proof.
  intros Hx Hp Hb. unfold requests. apply list_elem_of_omap. exists p. split.
  - apply list_elem_of_In, in_flat_map. exists x. by rewrite <- !list_elem_of_In.
  - by rewrite Hb.
Qed.

(** X16. From save to webhook: after a [save] that goes through, on a key
    that is not silenced, with a positive expiration and a payload that
    parses back to an alert, [getAlerts] lists that alert with TTL 0 and the
    next scan posts each of its messages that marshals to the webhook. *)
Theorem saved_alert_is_sent (a a' : Alert) (w : World) (data : string) :
  let k := GeneratorURL a in
  let w' := (save a w).2 in
  json_Marshal_Alert a = Ok data ->
  data <> "" ->
  json_Unmarshal_Alert data = (a', None) ->
  isError (Redis.exec (Redis.SADD alert_urls k) (db w)).1 = false ->
  k <> alert_urls ->
  isError (Redis.exec (Redis.HGET k "silence") (db w)).1 = false ->
  silenceFlag (db w) k <> Some "true" ->
  0 < expiration ->
  {| StatusAlert := a'; TTL := 0 |} ∈ (getAlerts w').1
  /\ forall p body,
       p ∈ toPayloads a' -> json_Marshal_Payload p = Ok body ->
       (token, body) ∈ posts (alert w').2.
Proof.
  intros k w' Hm Hd Hj Hadd Hka Hget Hns Hexp. subst w' k.
  set (k := GeneratorURL a) in *.
  assert (Hrec : exists h e, db (save a w).2 !! k =
            Some {| Redis.value :=
                      Redis.VHash (<["alert" := data]> (<["silence" := "false"]> ∅) ∪ h);
                    Redis.expire := e |}).
  { revert Hget Hns. unfold silenceFlag, hashField. cbn [Redis.exec].
    destruct (db w !! k) as [[[h|sk] e]|] eqn:Ek; cbn [fst isError Redis.wrongType];
      [|done|]; intros _ Hns.
    - exists h. eexists. apply (save_record a w data h e); auto.
    - exists ∅. eexists. apply (save_record a w data ∅ None); auto. }
  destruct Hrec as (h & e & Hrec).
  assert (Hin : {| StatusAlert := a'; TTL := 0 |} ∈ (getAlerts (save a w).2).1).
  { rewrite getAlerts_result. apply list_elem_of_omap. exists k. split.
    - apply elem_of_elements. rewrite (save_known a w data Hm Hadd).
      apply elem_of_union_l. by apply elem_of_singleton.
    - unfold entryOf. rewrite (readFields_hash _ _ _ _ Hrec), fv_alert, fv_silence. cbn.
      apply String.eqb_neq in Hd as ->. by rewrite Hj. }
  split; [done|]. intros p body Hp Hb. rewrite alert_posts.
  apply elem_of_app. right.
  apply (requests_flat_map _ _ {| StatusAlert := a'; TTL := 0 |} p); [|done|done].
  apply list_elem_of_filter. by split.
Qed.
End ScanFacts.

(** ** [Alert.toPayloads]: how many messages, and what they share *)
Section MessageFacts.
Context `{flags : !Flags, externals : !Externals}.

Lemma split1_length sep l :
  length (split1 sep l).2 = length (filter (fun c => c = sep) l).
Proof.
  induction l as [|c l IH]; [done|]. cbn [split1]. rewrite filter_cons.
  destruct (split1 sep l) as [h t]. cbn [snd] in IH.
  destruct (Ascii.eqb_spec c sep) as [->|Hne].
  - rewrite decide_True by done. cbn. by rewrite IH.
  - rewrite decide_False by done. done.
Qed.

Lemma Split_length s : length (Split s ",") = S (commas s).
Proof.
  unfold Split, commas, splitBytes. rewrite length_fmap.
  rewrite <- split1_length. by destruct (split1 _ _).
Qed.

(** X17. The number of messages of an alert: for each of the labels [users]
    and [channels] that is present, one more than the label has commas. So
    a trailing comma or two commas in a row give a message of their own. *)
Theorem toPayloads_count (a : Alert) :
  length (toPayloads a) =
  (match Labels a !! "users" with Some users => S (commas users) | None => 0 end
   + match Labels a !! "channels" with
     | Some channels => S (commas channels)
     | None => 0
     end)%nat.
Proof.
  rewrite <- (length_fmap Channel), toPayloads_channels, length_app.
  unfold recipients_spec.
  destruct (Labels a !! "users"), (Labels a !! "channels");
    by rewrite ?length_fmap, ?Split_length.
Qed.

(** X18. The messages of one alert differ in their recipient only: each is
    sent as [alert-bot] with the loudspeaker icon, its text is the [curl]
    command that silences the alert's key for the configured default
    duration at the external URL, and it carries one attachment: colour
    [warning], the generator URL as title link, the start time as
    timestamp, and as title, text and footer the annotations [summary] and
    [description] and the label [env], each empty when absent. *)
Theorem toPayloads_template (a : Alert) (p : Payload) :
  p ∈ toPayloads a ->
  Username p = "alert-bot"
  /\ IconEmoji p = ":loudspeaker:"
  /\ IconURL p = ""
  /\ PayloadText p =
       "`curl -XPOST " +:+ externalURL +:+
       "/silence -H 'Content-Type: application/json' -d '" +:+
       match json_Marshal_Silence {| URL := GeneratorURL a; Duration := silenceDuration |} with
       | Ok s => s
       | Err _ => ""
       end +:+ "'`"
  /\ exists att,
       Attachments p = [att]
       /\ Color att = "warning"
       /\ TitleLink att = GeneratorURL a
       /\ Timestamp att = Unix (StartsAt a)
       /\ Title att = default "" (Annotations a !! "summary")
       /\ Text att = default "" (Annotations a !! "description")
       /\ Footer att = default "" (Labels a !! "env").
Proof.
  unfold toPayloads.
  assert (Hd : forall o : option string, match o with Some x => x | None => "" end = default "" o)
    by by intros [?|].
  destruct (Labels a !! "users") as [users|], (Labels a !! "channels") as [channels|].
  all: rewrite ?foldl_append, ?elem_of_app, ?list_elem_of_fmap, ?elem_of_nil.
  all: intros Hin;
    repeat match goal with
           | H : _ \/ _ |- _ => destruct H
           | H : False |- _ => destruct H
           | H : exists _, _ |- _ => destruct H as (? & -> & _)
           end.
  all: cbn [Username IconEmoji IconURL PayloadText Attachments].
  all: repeat split; eexists; split; [reflexivity|]; cbn; rewrite <- !Hd; done.
Qed.
End MessageFacts.

(** ** [indexHandler] and [listHandler] *)
Section HandlerFacts.
Context `{flags : !Flags, externals : !Externals}.

(** X19. [indexHandler] answers [ok] whatever the request, posts nothing,
    and does to the store what saving the alerts that the decoder left does,
    one after the other. A decoding error is logged and changes nothing
    else: the alerts decoded before the error are saved all the same. *)
Theorem indexHandler_saves_what_was_decoded (r : Request) (w : World) :
  let alerts := (json_Unmarshal_Alerts (Body r)).1 in
  (indexHandler r w).1 = "ok"
  /\ db (indexHandler r w).2 = db (forEach alerts save w).2
  /\ posts (indexHandler r w).2 = posts w
  /\ (forall err, (json_Unmarshal_Alerts (Body r)).2 = Some err ->
        LogUnmarshalAlerts (Body r) ∈ logs (indexHandler r w).2).
Proof.
  intros alerts. subst alerts. unfold indexHandler.
  destruct (json_Unmarshal_Alerts (Body r)) as [alerts err]. cbn [fst snd]. run.
  split; [done|]. split; [|split].
  - apply forEach_save_frame. by destruct err, (ReadErr r).
  - rewrite forEach_save_posts. by destruct err, (ReadErr r).
  - intros e ->. run.
    match goal with
    | |- _ ∈ logs (forEach _ save ?w0).2 =>
        destruct (forEach_save_logs alerts w0) as [ls ->]
    end.
    apply elem_of_app. left. cbn. apply elem_of_app. right. by left.
Qed.

(** X20. After [indexHandler], every alert of the request that marshals is
    a known key, also when other alerts of the same request are saved after
    it, provided [alert_urls] did not hold a hash. *)
Theorem indexHandler_registers (r : Request) (w : World) (a : Alert) (data : string) :
  notHash (db w !! alert_urls) ->
  a ∈ (json_Unmarshal_Alerts (Body r)).1 ->
  json_Marshal_Alert a = Ok data ->
  GeneratorURL a ∈ knownKeys (db (indexHandler r w).2).
Proof.
  intros Hn Hin Hm.
  assert (Hdb : db (indexHandler r w).2 =
                db (forEach (json_Unmarshal_Alerts (Body r)).1 save w).2).
  { unfold indexHandler.
    destruct (json_Unmarshal_Alerts (Body r)) as [alerts err]. cbn [fst snd]. run.
    apply forEach_save_frame. by destruct err, (ReadErr r). }
  rewrite Hdb. eapply forEach_save_known; [done|]. by left.
Qed.

Section WithEncoder.
Context `{encoder : !Encoder}.

(** X21. [listHandler] is not read-only: it answers with the encoding of
    the list of [getAlerts] and has the effect of [getAlerts] on the store,
    so a request to list the alerts removes the known keys whose payload
    reads as empty; it changes no alert record and posts nothing. *)
Theorem listHandler_prunes (r : Request) (w : World) :
  (listHandler r w).1 =
    match json_Encode_Statuses (getAlerts w).1 with
    | Ok s => s +:+ String "010"%char ""
    | Err _ => ""
    end
  /\ (forall k, k ∈ knownKeys (db (listHandler r w).2) <->
                k ∈ knownKeys (db w) /\ stale (db w) k = false)
  /\ (forall k, k <> alert_urls -> db (listHandler r w).2 !! k = db w !! k)
  /\ posts (listHandler r w).2 = posts w.
Proof.
  unfold listHandler. run. split; [done|].
  split; [apply getAlerts_known_iff|]. split; [apply getAlerts_other|apply getAlerts_posts].
Qed.
End WithEncoder.
End HandlerFacts.

(** ** The further properties at concrete inputs *)

Lemma save_touches_two_keys_witness :
  "bad" <> alert_urls
  /\ "bad" <> GeneratorURL alertU
  /\ db (save alertU staleWorld).2 !! "bad" = db staleWorld !! "bad".
Proof.
  assert (H1 : "bad" <> alert_urls) by (vm_compute; discriminate).
  assert (H2 : "bad" <> GeneratorURL alertU) by (vm_compute; discriminate).
  exact (conj H1 (conj H2 (save_touches_two_keys alertU staleWorld "bad" H1 H2))).
Defined.

Lemma save_refire_witness :
  let a := alertAt "u" {["channels" := "night"]} in
  json_Marshal_Alert a = Ok "alert|u|night"
  /\ payloadOf (db savedWorld) "u" = Some "alert|u|ops, releases"
  /\ ttlOf (db savedWorld) "u" = 180
  /\ payloadOf (db (save a savedWorld).2) "u" = Some "alert|u|night"
  /\ silenceFlag (db (save a savedWorld).2) "u" = Some "false"
  /\ ttlOf (db (save a savedWorld).2) "u" = 180.
Proof.
  intros a.
  assert (Hm : json_Marshal_Alert a = Ok "alert|u|night") by reflexivity.
  assert (Hadd : isError (Redis.exec (Redis.SADD alert_urls (GeneratorURL a))
                            (db savedWorld)).1 = false) by (vm_compute; reflexivity).
  assert (Ek : db savedWorld !! GeneratorURL a =
               Some {| Redis.value :=
                         Redis.VHash (<["alert" := "alert|u|ops, releases"]>
                                        (<["silence" := "false"]> ∅));
                       Redis.expire := Some 180%N |}) by (vm_compute; reflexivity).
  assert (Hns : (<["alert" := "alert|u|ops, releases"]>
                   (<["silence" := "false"]> (∅ : gmap string string))) !! "silence"
                <> Some "true") by (vm_compute; discriminate).
  assert (Hexp : is_Some (Some 180%N) \/ 0 < expiration) by (right; reflexivity).
  assert (Hp0 : payloadOf (db savedWorld) "u" = Some "alert|u|ops, releases")
    by (vm_compute; reflexivity).
  assert (Ht0 : ttlOf (db savedWorld) "u" = 180) by (vm_compute; reflexivity).
  destruct (save_refire a savedWorld _ _ _ Hm Hadd Ek Hns Hexp) as (Hp & Hf & _ & Ht).
  exact (conj Hm (conj Hp0 (conj Ht0 (conj Hp (conj Hf Ht))))).
Defined.

Lemma save_wrong_type_witness :
  json_Marshal_Alert alertU = Ok "alert|u|ops, releases"
  /\ (db (save alertU hashedWorld).2 = db hashedWorld
      /\ logs (save alertU hashedWorld).2 = [LogSaveFailed "u" wrongTypeMsg])
  /\ ("u" ∈ knownKeys (db (save alertU clashWorld).2)
      /\ logs (save alertU clashWorld).2 = [LogSaveFailed "u" wrongTypeMsg]).
Proof.
  assert (Hm : json_Marshal_Alert alertU = Ok "alert|u|ops, releases") by reflexivity.
  assert (E1 : db hashedWorld !! alert_urls =
               Some {| Redis.value := Redis.VHash {[ "alert" := "x" ]};
                       Redis.expire := None |}) by (vm_compute; reflexivity).
  assert (E2 : db clashWorld !! GeneratorURL alertU =
               Some {| Redis.value := Redis.VSet {[ "member" ]};
                       Redis.expire := None |}) by (vm_compute; reflexivity).
  assert (Hne : GeneratorURL alertU <> alert_urls) by (vm_compute; discriminate).
  assert (Hadd : isError (Redis.exec (Redis.SADD alert_urls (GeneratorURL alertU))
                            (db clashWorld)).1 = false) by (vm_compute; reflexivity).
  destruct (save_wrong_type alertU hashedWorld _ Hm) as [Hhash _].
  destruct (save_wrong_type alertU clashWorld _ Hm) as [_ Hset].
  destruct (Hhash _ _ E1) as (Hdb & _ & Hlog).
  destruct (Hset _ _ E2 Hne Hadd) as (_ & Hin & _ & Hlog2).
  exact (conj Hm (conj (conj Hdb Hlog) (conj Hin Hlog2))).
Defined.

Lemma silence_wrong_type_witness :
  let s := {| URL := "u"; Duration := 0 |} in
  db (silence s clashWorld).2 = db clashWorld
  /\ issued (silence s) clashWorld = [(Redis.HSET "u" "silence" "true", Redis.wrongType)]
  /\ logs (silence s clashWorld).2 = [LogSilenceFailed "u" wrongTypeMsg].
Proof.
  intros s.
  assert (E : db clashWorld !! URL s =
              Some {| Redis.value := Redis.VSet {[ "member" ]};
                      Redis.expire := None |}) by (vm_compute; reflexivity).
  exact (silence_wrong_type s clashWorld _ _ E).
Defined.

Lemma silenced_alert_refires_witness :
  let s := {| URL := "u"; Duration := 0 |} in
  GeneratorURL alertU = URL s
  /\ db (save alertU silencedWorld).2 !! "u" = db silencedWorld !! "u"
  /\ silenceFlag (db (save alertU silencedWorld).2) "u" = Some "true"
  /\ ttlOf (db (save alertU silencedWorld).2) "u" = 3600.
Proof.
  intros s.
  assert (Hk : GeneratorURL alertU = URL s) by reflexivity.
  assert (Hok : isError (Redis.exec (Redis.HSET (URL s) "silence" "true")
                           (db savedWorld)).1 = false) by (vm_compute; reflexivity).
  assert (Hcfg : Duration s = 0 -> 0 < silenceDuration) by (intros _; reflexivity).
  destruct (silenced_alert_refires s alertU savedWorld Hk Hok Hcfg) as (Hsame & Hf & Ht).
  exact (conj Hk (conj Hsame (conj Hf Ht))).
Defined.

Lemma silenced_alert_listed_witness :
  let s := {| URL := "u"; Duration := -1 |} in
  "u" ∈ knownKeys (db savedWorld)
  /\ readFields (db savedWorld) "u" = Ok ["alert|u|ops, releases"; "false"]
  /\ json_Unmarshal_Alert "alert|u|ops, releases" = (alertU, None)
  /\ {| StatusAlert := alertU; TTL := -1 |} ∈ (getAlerts (silence s savedWorld).2).1.
Proof.
  intros s.
  assert (Hin : URL s ∈ knownKeys (db savedWorld)) by (vm_compute; reflexivity).
  assert (Hr : readFields (db savedWorld) (URL s) = Ok ["alert|u|ops, releases"; "false"])
    by (vm_compute; reflexivity).
  assert (Hp : "alert|u|ops, releases" <> "") by discriminate.
  assert (Hj : json_Unmarshal_Alert "alert|u|ops, releases" = (alertU, None))
    by (vm_compute; reflexivity).
  assert (Hcfg : Duration s = 0 -> 0 < silenceDuration) by (intros [=]).
  exact (conj Hin (conj Hr (conj Hj
           (silenced_alert_listed s savedWorld _ _ alertU Hin Hr Hp Hj Hcfg)))).
Defined.

Lemma getAlerts_sound_witness :
  {| StatusAlert := alertU; TTL := 0 |} ∈ (getAlerts savedWorld).1
  /\ exists url payload,
       url ∈ knownKeys (db savedWorld)
       /\ payloadOf (db savedWorld) url = Some payload
       /\ json_Unmarshal_Alert payload = (alertU, None).
Proof.
  assert (Hin : {| StatusAlert := alertU; TTL := 0 |} ∈ (getAlerts savedWorld).1)
    by (vm_compute; constructor).
  destruct (getAlerts_sound savedWorld _ Hin) as (url & payload & Hk & Hp & _ & Hj & _).
  exact (conj Hin (ex_intro _ url (ex_intro _ payload (conj Hk (conj Hp Hj))))).
Defined.

Lemma alert_wrong_type_witness :
  db (alert hashedWorld).2 = db hashedWorld
  /\ logs (alert hashedWorld).2 = [LogExpectedURLList Redis.wrongType]
  /\ posts (alert hashedWorld).2 = [].
Proof.
  assert (E : db hashedWorld !! alert_urls =
              Some {| Redis.value := Redis.VHash {[ "alert" := "x" ]};
                      Redis.expire := None |}) by (vm_compute; reflexivity).
  pose proof (alert_wrong_type hashedWorld _ _ E) as H.
  exact (conj (f_equal (fun x => db x.2) H)
           (conj (f_equal (fun x => logs x.2) H) (f_equal (fun x => posts x.2) H))).
Defined.

Lemma saved_alert_is_sent_witness :
  let p := hd zeroPayload (toPayloads alertU) in
  json_Marshal_Alert alertU = Ok "alert|u|ops, releases"
  /\ json_Unmarshal_Alert "alert|u|ops, releases" = (alertU, None)
  /\ p ∈ toPayloads alertU
  /\ json_Marshal_Payload p = Ok "ops"
  /\ {| StatusAlert := alertU; TTL := 0 |} ∈ (getAlerts savedWorld).1
  /\ ("https://hooks.example/T", "ops") ∈ posts (alert savedWorld).2.
Proof.
  intros p.
  assert (Hm : json_Marshal_Alert alertU = Ok "alert|u|ops, releases") by reflexivity.
  assert (Hd : "alert|u|ops, releases" <> "") by discriminate.
  assert (Hj : json_Unmarshal_Alert "alert|u|ops, releases" = (alertU, None))
    by (vm_compute; reflexivity).
  assert (Hadd : isError (Redis.exec (Redis.SADD alert_urls (GeneratorURL alertU))
                            (db emptyWorld)).1 = false) by (vm_compute; reflexivity).
  assert (Hne : GeneratorURL alertU <> alert_urls) by (vm_compute; discriminate).
  assert (Hget : isError (Redis.exec (Redis.HGET (GeneratorURL alertU) "silence")
                            (db emptyWorld)).1 = false) by (vm_compute; reflexivity).
  assert (Hns : silenceFlag (db emptyWorld) (GeneratorURL alertU) <> Some "true")
    by (vm_compute; discriminate).
  assert (Hexp : 0 < expiration) by reflexivity.
  assert (Hp : p ∈ toPayloads alertU) by (vm_compute; constructor).
  assert (Hb : json_Marshal_Payload p = Ok "ops") by (vm_compute; reflexivity).
  destruct (saved_alert_is_sent alertU alertU emptyWorld _ Hm Hd Hj Hadd Hne Hget Hns Hexp)
    as [Hin Hsend].
  exact (conj Hm (conj Hj (conj Hp (conj Hb (conj Hin (Hsend p "ops" Hp Hb)))))).
Defined.

Lemma toPayloads_template_witness :
  let p := hd zeroPayload (toPayloads alertU) in
  p ∈ toPayloads alertU
  /\ Channel p = "ops"
  /\ Username p = "alert-bot"
  /\ PayloadText p =
     "`curl -XPOST http://molert.example:9093/silence -H 'Content-Type: application/json' -d 'u'`"
  /\ (Color <$> Attachments p) = ["warning"]
  /\ (TitleLink <$> Attachments p) = ["u"].
Proof.
  intros p.
  assert (Hp : p ∈ toPayloads alertU) by (vm_compute; constructor).
  destruct (toPayloads_template alertU p Hp)
    as (Hu & _ & _ & Ht & att & Hatt & Hc & Hl & _).
  split; [exact Hp|]. split; [vm_compute; reflexivity|]. split; [exact Hu|].
  split; [etrans; [exact Ht|]; vm_compute; reflexivity|].
  rewrite Hatt. cbn [fmap list_fmap]. rewrite Hc, Hl. split; reflexivity.
Defined.

Lemma indexHandler_registers_witness :
  let r := {| Body := "alert|u|ops, releases"; ReadErr := None |} in
  notHash (db emptyWorld !! alert_urls)
  /\ alertU ∈ (json_Unmarshal_Alerts (Body r)).1
  /\ json_Marshal_Alert alertU = Ok "alert|u|ops, releases"
  /\ "u" ∈ knownKeys (db (indexHandler r emptyWorld).2).
Proof.
  intros r.
  assert (Hn : notHash (db emptyWorld !! alert_urls)) by (vm_compute; exact I).
  assert (Hin : alertU ∈ (json_Unmarshal_Alerts (Body r)).1) by (vm_compute; constructor).
  assert (Hm : json_Marshal_Alert alertU = Ok "alert|u|ops, releases") by reflexivity.
  exact (conj Hn (conj Hin (conj Hm (indexHandler_registers r emptyWorld alertU _ Hn Hin Hm)))).
Defined.
